(** * Burrito bake tool: registry, batch driver, range resolution and mute guard

    A shallow embedding of [burrito_v_0.0.1.py].  The Python module keeps its
    state in module globals ([_STATUS], [_MARKED_NS], [_RIGS_CACHE],
    [_LABEL2NS], [_LIST_LABELS], [_muted_expr_backup]) and talks to the host
    application (Maya: scene, widgets, event pump, retarget service) through
    [cmds] and a few studio modules.  The globals become the fields of one
    [World] record that also carries the host state; the host is abstract
    (a record of operations over a type [H]), so every theorem holds for any
    behaviour of the host.  Code that can raise lives in a state-and-exception
    monad; [try]/[except]/[finally] are combinators of that monad.

    What the embedding takes for granted:
    - scene queries, scene commands and the retarget service may raise any
      [Exception]; commands on the widgets that [open_bake_ui] has built and
      on the progress window return normally, and [_UI] holds their keys;
    - the host changes the host state only: callbacks into the module while
      the event pump runs are not modelled;
    - [print] is left out; [cmds.warning] is recorded in a log;
    - attribute values are [None], integers or booleans;
    - the retarget service signals a failure by raising: the driver discards
      what [batch] returns. *)

From Stdlib Require Import ZArith String Ascii List.
From stdpp Require Import gmap strings list fin_maps sorting.

(** ** Python values *)

(** The five status strings ['not'], ['baked'], ['skipped'], ['failed'],
    ['canceled'] of [_STATUS]. *)
Inductive Status := St_not | St_baked | St_skipped | St_failed | St_canceled.

#[global] Instance Status_eq_dec : EqDecision Status.
Proof. solve_decision. Defined.

(** The Python values that cross the boundaries modelled here: attribute
    values read from the scene ([None], integers, booleans) and what a
    function hands back to its caller.  Floating-point attribute values are
    outside the embedding. *)
Inductive pyval :=
| PyNone
| PyInt (z : Z)
| PyBool (b : bool)
| PyDict (d : gmap string Status).

#[global] Instance pyval_eq_dec : EqDecision pyval.
Proof. solve_decision. Defined.

(** [v == 1] *)
Definition eq_one (v : pyval) : bool :=
  match v with
  | PyInt z => Z.eqb z 1
  | PyBool b => b
  | _ => false
  end.

(** [v != 1] *)
Definition ne_one (v : pyval) : bool := negb (eq_one v).

(** Truth value of a namespace: [None] and the empty string are falsy. *)
Definition truthy (ns : string) : bool := negb (String.eqb ns "").

(** Exceptions; every one is a subclass of [Exception]. *)
Inductive exn :=
| RuntimeError (msg : string)
| TypeError
| NameError (name : string)
| HostError (msg : string).

#[global] Instance exn_eq_dec : EqDecision exn.
Proof. solve_decision. Defined.

(** [int(round(float(v)))] on the values above. *)
Definition int_round_float (v : pyval) : exn + Z :=
  match v with
  | PyInt z => inr z
  | PyBool b => inr (if b then 1%Z else 0%Z)
  | _ => inl TypeError
  end.

(** An entry of [scene_actors.get_all_actors_in_scene()]: [a.get('namespace')]
    and [a.get('actor_name', '')]. *)
Record Actor := { a_namespace : option string; a_actor_name : string }.

#[global] Instance Actor_eq_dec : EqDecision Actor.
Proof. solve_decision. Defined.

(** An entry of [_RIGS_CACHE]. *)
Record Rig := {
  namespace : option string;
  actor_name : string;
  bind_skeleton_driver : pyval
}.

#[global] Instance Rig_eq_dec : EqDecision Rig.
Proof. solve_decision. Defined.

(** Diagnostics passed to [cmds.warning]. *)
Inductive Warning :=
| WFailedBaking (ns : string)
| WCouldNotMute (ex : string)
| WCouldNotRestore (ex : string)
| WFailedDeleteTE (t : string)
| WSwapRange
| WBakeCanceledNoMarks
| WFailedReadHeadTail
| WTimelineFallback (start_frame end_frame : Z)
| WCouldNotComputeRange.

#[global] Instance Warning_eq_dec : EqDecision Warning.
Proof. solve_decision. Defined.

(** Outcome of a computation over a state [W]. *)
Inductive Res (W A : Type) :=
| Ret (a : A) (s : W)
| Raise (e : exn) (s : W).
Arguments Ret {W A} a s.
Arguments Raise {W A} e s.

#[global] Instance Res_eq_dec {W A} `{EqDecision W, EqDecision A} : EqDecision (Res W A).
Proof. solve_decision. Defined.

(** ** The host *)

Set Implicit Arguments.
Set Maximal Implicit Insertion.

(** What the module uses of Maya and of the studio libraries.  Queries read
    the host state; commands change it.  Scene and service calls may raise;
    commands on the module's own widgets and progress window return
    normally. *)
Record Maya (H : Type) := {
  (* scene queries *)
  objExists : string -> H -> bool;
  attributeQuery_exists : string -> string -> H -> exn + bool;
  getAttr : string -> H -> exn + pyval;
  getAttr_expression : string -> H -> exn + string;
  listRelatives_shapes : string -> H -> exn + list string;
  anim_camera_get_attr : string -> string -> H -> exn + pyval;
  get_all_actors_in_scene : H -> exn + list Actor;
  ls_type : string -> H -> list string;
  playbackOptions_min : H -> Z;
  playbackOptions_max : H -> Z;
  (* scene and service commands *)
  expression_edit : string -> string -> H -> Res H unit;
  retarget_batch : string -> Z -> Z -> H -> Res H unit;
  processIdleEvents : H -> Res H unit;
  delete_nodes : list string -> H -> Res H unit;
  currentTime_set : Z -> H -> H;
  playbackOptions_set : Z -> Z -> H -> H;
  (* progress window *)
  progressWindow_begin : nat -> H -> H;
  progressWindow_progress : nat -> H -> H;
  progressWindow_status : string -> nat -> nat -> H -> H;
  progressWindow_isCancelled : H -> bool;
  progressWindow_end : H -> H;
  (* widgets of the tool's window *)
  window_exists : H -> bool;
  tsl_selected_items : H -> list string;
  tsl_remove_all : H -> H;
  tsl_append : string -> H -> H;
  tsl_select_indices : list nat -> H -> H;
  textField_text : H -> string;
  checkBox_value : string -> H -> bool;
  intField_value : string -> H -> Z;
  radioButtonGrp_select : H -> Z;
  optionMenu_value : string -> H -> string;
  confirmDialog : string -> H -> string;
  status_base_set : nat -> nat -> nat -> H -> H;
  status_count_set : Status -> nat -> H -> H;
  inViewMessage : Z -> Z -> H -> H;
  (* Python string library and the regular expression of the scan *)
  str_lower : string -> string;
  str_replace : string -> string -> string -> string;
  referenced_nodes : string -> list string
}.

(** ** The world: host state and module globals *)

(** [_muted_expr_backup] is bound by [mute_broken_expressions] only (a
    [global] statement, no module-level assignment): [None] is the unbound
    name.  A dict keeps insertion order, which fixes the order of the
    restores.  [bake_calls] and [warnings] are ghost logs: the calls made to
    the retarget service (namespace, start, end, and whether the call
    returned normally) and the calls made to [cmds.warning]. *)
Record World (H : Type) := {
  host : H;
  _STATUS : gmap string Status;
  _MARKED_NS : gset string;
  _RIGS_CACHE : list Rig;
  _LIST_LABELS : list string;
  _LABEL2NS : gmap string string;
  _muted_expr_backup : option (list (string * string));
  bake_calls : list (string * Z * Z * bool);
  warnings : list Warning
}.

#[global] Instance World_eq_dec {H} `{EqDecision H} : EqDecision (World H).
Proof. solve_decision. Defined.

Unset Maximal Implicit Insertion.
Unset Implicit Arguments.

(** ** The state-and-exception monad *)

Definition M (W A : Type) : Type := W -> Res W A.

Definition ret {W A} (a : A) : M W A := fun s => Ret a s.

Definition bind {W A B} (m : M W A) (k : A -> M W B) : M W B :=
  fun s => match m s with
           | Ret a s' => k a s'
           | Raise e s' => Raise e s'
           end.

Definition raise {W A} (e : exn) : M W A := fun s => Raise e s.

(** [try: body / except Exception as e: handler e] *)
Definition try_except {W A} (body : M W A) (handler : exn -> M W A) : M W A :=
  fun s => match body s with
           | Ret a s' => Ret a s'
           | Raise e s' => handler e s'
           end.

(** [try: body / finally: fin]: [fin] always runs; an exception of [fin]
    replaces the outcome of [body]. *)
Definition try_finally {W A} (body : M W A) (fin : M W unit) : M W A :=
  fun s => match body s with
           | Ret a s' =>
               match fin s' with
               | Ret _ s'' => Ret a s''
               | Raise e s'' => Raise e s''
               end
           | Raise e s' =>
               match fin s' with
               | Ret _ s'' => Raise e s''
               | Raise e' s'' => Raise e' s''
               end
           end.

(** State transformer that cannot fail. *)
Definition modify {W} (f : W -> W) : M W unit := fun s => Ret tt (f s).

Declare Scope py_scope.
Delimit Scope py_scope with py.
Notation "x <- m ; k" := (bind m (fun x => k))
  (at level 20, m at level 100, k at level 200, only parsing) : py_scope.
Notation "m ;; k" := (bind m (fun _ => k))
  (at level 100, k at level 200, only parsing, right associativity) : py_scope.

(** [for x in l: body x] *)
Fixpoint for_each {W A} (body : A -> M W unit) (l : list A) : M W unit :=
  match l with
  | [] => ret tt
  | x :: tl => bind (body x) (fun _ => for_each body tl)
  end.

(** [out = []; for x in l: out.append(f x)] *)
Fixpoint for_collect {W A B} (f : A -> M W B) (l : list A) : M W (list B) :=
  match l with
  | [] => ret []
  | x :: tl => bind (f x) (fun y => bind (for_collect f tl) (fun ys => ret (y :: ys)))
  end.

(** How an iteration of a loop with [break] ends. *)
Inductive ctl := Continue | Break.

#[global] Instance ctl_eq_dec : EqDecision ctl.
Proof. solve_decision. Defined.

(** [for i, x in enumerate(l, i0): body i x], where the body may [break]. *)
Fixpoint for_enumerate {W A} (body : nat -> A -> M W ctl) (i : nat) (l : list A)
  : M W unit :=
  match l with
  | [] => ret tt
  | x :: tl =>
      bind (body i x) (fun c =>
        match c with
        | Break => ret tt
        | Continue => for_enumerate body (S i) tl
        end)
  end.

(** [s in t] on strings *)
Fixpoint is_substring (s t : string) : bool :=
  String.prefix s t ||
  match t with
  | EmptyString => false
  | String _ t' => is_substring s t'
  end.

(** [sorted(...)] on strings: code point order, which is byte order in UTF-8. *)
Definition string_le (a b : string) : Prop := String.leb a b = true.

#[global] Instance string_le_dec : RelDecision string_le.
Proof. intros a b. unfold string_le. apply _. Defined.

Definition sorted (l : list string) : list string := merge_sort string_le l.

(** ** The module *)

Section Burrito.

Context {H : Type} (maya : Maya H).

Local Abbreviation St := (World H).
Local Open Scope py_scope.

(** *** Access to the host and to the globals *)

Definition set_host (h : H) (w : St) : St :=
  {| host := h; _STATUS := _STATUS w; _MARKED_NS := _MARKED_NS w;
     _RIGS_CACHE := _RIGS_CACHE w; _LIST_LABELS := _LIST_LABELS w;
     _LABEL2NS := _LABEL2NS w; _muted_expr_backup := _muted_expr_backup w;
     bake_calls := bake_calls w; warnings := warnings w |}.

Definition set_STATUS (m : gmap string Status) (w : St) : St :=
  {| host := host w; _STATUS := m; _MARKED_NS := _MARKED_NS w;
     _RIGS_CACHE := _RIGS_CACHE w; _LIST_LABELS := _LIST_LABELS w;
     _LABEL2NS := _LABEL2NS w; _muted_expr_backup := _muted_expr_backup w;
     bake_calls := bake_calls w; warnings := warnings w |}.

Definition set_MARKED_NS (m : gset string) (w : St) : St :=
  {| host := host w; _STATUS := _STATUS w; _MARKED_NS := m;
     _RIGS_CACHE := _RIGS_CACHE w; _LIST_LABELS := _LIST_LABELS w;
     _LABEL2NS := _LABEL2NS w; _muted_expr_backup := _muted_expr_backup w;
     bake_calls := bake_calls w; warnings := warnings w |}.

Definition set_RIGS_CACHE (l : list Rig) (w : St) : St :=
  {| host := host w; _STATUS := _STATUS w; _MARKED_NS := _MARKED_NS w;
     _RIGS_CACHE := l; _LIST_LABELS := _LIST_LABELS w;
     _LABEL2NS := _LABEL2NS w; _muted_expr_backup := _muted_expr_backup w;
     bake_calls := bake_calls w; warnings := warnings w |}.

Definition set_labels (l : list string) (m : gmap string string) (w : St) : St :=
  {| host := host w; _STATUS := _STATUS w; _MARKED_NS := _MARKED_NS w;
     _RIGS_CACHE := _RIGS_CACHE w; _LIST_LABELS := l;
     _LABEL2NS := m; _muted_expr_backup := _muted_expr_backup w;
     bake_calls := bake_calls w; warnings := warnings w |}.

Definition set_muted_expr_backup (b : option (list (string * string))) (w : St) : St :=
  {| host := host w; _STATUS := _STATUS w; _MARKED_NS := _MARKED_NS w;
     _RIGS_CACHE := _RIGS_CACHE w; _LIST_LABELS := _LIST_LABELS w;
     _LABEL2NS := _LABEL2NS w; _muted_expr_backup := b;
     bake_calls := bake_calls w; warnings := warnings w |}.

Definition log_bake_call (c : string * Z * Z * bool) (w : St) : St :=
  {| host := host w; _STATUS := _STATUS w; _MARKED_NS := _MARKED_NS w;
     _RIGS_CACHE := _RIGS_CACHE w; _LIST_LABELS := _LIST_LABELS w;
     _LABEL2NS := _LABEL2NS w; _muted_expr_backup := _muted_expr_backup w;
     bake_calls := bake_calls w ++ [c]; warnings := warnings w |}.

Definition log_warning (x : Warning) (w : St) : St :=
  {| host := host w; _STATUS := _STATUS w; _MARKED_NS := _MARKED_NS w;
     _RIGS_CACHE := _RIGS_CACHE w; _LIST_LABELS := _LIST_LABELS w;
     _LABEL2NS := _LABEL2NS w; _muted_expr_backup := _muted_expr_backup w;
     bake_calls := bake_calls w; warnings := warnings w ++ [x] |}.

(** A query that returns normally. *)
Definition query {A} (f : H -> A) : M St A := fun w => Ret (f (host w)) w.

(** A query that may raise. *)
Definition queryE {A} (f : H -> exn + A) : M St A :=
  fun w => match f (host w) with
           | inr a => Ret a w
           | inl e => Raise e w
           end.

(** A command that returns normally. *)
Definition command (f : H -> H) : M St unit :=
  fun w => Ret tt (set_host (f (host w)) w).

(** A command that may raise. *)
Definition commandE {A} (f : H -> Res H A) : M St A :=
  fun w => match f (host w) with
           | Ret a h => Ret a (set_host h w)
           | Raise e h => Raise e (set_host h w)
           end.

(** Reading a global. *)
Definition gets {A} (f : St -> A) : M St A := fun w => Ret (f w) w.

(** [cmds.warning(...)] *)
Definition warning (x : Warning) : M St unit := modify (log_warning x).

(** *** Readiness flag and inventory *)

Definition _read_bind_driver (ns : string) : M St pyval :=
  let switch := ns +:+ ":M_GlobalSwitch01_CTRL" in
  let attr := switch +:+ ".bind_skeleton_driver" in
  try_except
    (ex <- query (objExists maya switch);
     if ex : bool then
       aq <- queryE (attributeQuery_exists maya "bind_skeleton_driver" switch);
       if aq : bool then queryE (getAttr maya attr) else ret PyNone
     else ret PyNone)
    (fun _ => ret PyNone).

Definition list_scene_rigs : M St (list Rig) :=
  all_actors <- try_except (queryE (get_all_actors_in_scene maya)) (fun _ => ret []);
  for_collect
    (fun a =>
       let ns := a_namespace a in
       let nm := a_actor_name a in
       bsd <- match ns with
              | Some s => if truthy s then _read_bind_driver s else ret PyNone
              | None => ret PyNone
              end;
       ret {| namespace := ns; actor_name := nm; bind_skeleton_driver := bsd |})
    all_actors.

(** *** Status map *)

Definition status_init_from_bind (ns : string) (bind_driver : pyval)
  (st : gmap string Status) : gmap string Status :=
  match st !! ns with
  | Some _ => st
  | None => <[ns := if eq_one bind_driver then St_baked else St_not]> st
  end.

Definition _status_init_from_bind (ns : string) (bind_driver : pyval) : M St unit :=
  modify (fun w => set_STATUS (status_init_from_bind ns bind_driver (_STATUS w)) w).

Definition status_set (ns : string) (state : Status)
  (st : gmap string Status) : gmap string Status :=
  if truthy ns then <[ns := state]> st else st.

Definition _status_set (ns : string) (state : Status) : M St unit :=
  modify (fun w => set_STATUS (status_set ns state (_STATUS w)) w).

Definition status_get (st : gmap string Status) (ns : string) : Status :=
  default St_not (st !! ns).

Definition _status_get (ns : string) : M St Status :=
  gets (fun w => status_get (_STATUS w) ns).

(** *** Labels and the visible list *)

Definition LIST_MARK_ON : string := "🟢".
Definition LIST_MARK_OFF : string := "⚪".

Definition _STATUS_ICON (s : Status) : string :=
  match s with
  | St_not => "⚪"
  | St_baked => "🟢"
  | St_skipped => "🟡"
  | St_failed => "🔴"
  | St_canceled => "🔵"
  end.

Definition _STATUS_LABEL (s : Status) : string :=
  match s with
  | St_not => "Not baked"
  | St_baked => "Baked"
  | St_skipped => "Skipped"
  | St_failed => "Failed"
  | St_canceled => "Canceled"
  end.

Definition _rig_pretty_label (ns actor_name : string) (w : St) : string :=
  let mark := if decide (ns ∈ _MARKED_NS w) then LIST_MARK_ON else LIST_MARK_OFF in
  let s := status_get (_STATUS w) ns in
  let icon := _STATUS_ICON s in
  let tag := _STATUS_LABEL s in
  let core := if String.eqb actor_name "" then ns else ns +:+ " — " +:+ actor_name in
  mark +:+ " " +:+ core +:+ "    " +:+ icon +:+ " " +:+ tag.

Definition _collect_filter_flags : M St (string * bool * bool) :=
  txt <- query (textField_text maya);
  hide_baked <- query (checkBox_value maya "cb_hide_baked");
  show_only_marked <- query (checkBox_value maya "cb_show_only_marked");
  ret (txt, hide_baked, show_only_marked).

(** [[_LABEL2NS[l] for l in labels if l in _LABEL2NS]] *)
Definition labels_to_namespaces (label2ns : gmap string string)
  (labels : list string) : list string :=
  omap (fun l => label2ns !! l) labels.

(** One turn of the row-building loop of [_populate_list]. *)
Definition populate_row (txt : string) (hide_baked show_only_marked : bool)
  (rig : Rig) (w : St) : St :=
  match namespace rig with
  | None => w
  | Some ns =>
      if negb (truthy ns) then w
      else
        let bsd := bind_skeleton_driver rig in
        if hide_baked && eq_one bsd then w
        else if show_only_marked && negb (bool_decide (ns ∈ _MARKED_NS w)) then w
        else
          let label := _rig_pretty_label ns (actor_name rig) w in
          if negb (String.eqb txt "") &&
             negb (is_substring (str_lower maya txt) (str_lower maya label))
          then w
          else set_labels (_LIST_LABELS w ++ [label]) (<[label := ns]> (_LABEL2NS w)) w
  end.

(** [[i for i, l in enumerate(labels, start=i0) if _LABEL2NS[l] in keep]] *)
Fixpoint rows_to_select (label2ns : gmap string string) (keep : list string)
  (i : nat) (labels : list string) : list nat :=
  match labels with
  | [] => []
  | l :: tl =>
      match label2ns !! l with
      | Some ns =>
          if bool_decide (ns ∈ keep) then i :: rows_to_select label2ns keep (S i) tl
          else rows_to_select label2ns keep (S i) tl
      | None => rows_to_select label2ns keep (S i) tl
      end
  end.

Definition count_status (s : Status) (w : St) : nat :=
  length (List.filter
            (fun r => match namespace r with
                      | Some ns => truthy ns && bool_decide (status_get (_STATUS w) ns = s)
                      | None => false
                      end)
            (_RIGS_CACHE w)).

Definition _update_counts : M St unit :=
  sel <- query (tsl_selected_items maya);
  let selected := length sel in
  marked <- gets (fun w => size (_MARKED_NS w));
  total <- gets (fun w => length (_RIGS_CACHE w));
  command (status_base_set maya selected marked total) ;;
  n_baked <- gets (count_status St_baked);
  command (status_count_set maya St_baked n_baked) ;;
  n_skipped <- gets (count_status St_skipped);
  command (status_count_set maya St_skipped n_skipped) ;;
  n_failed <- gets (count_status St_failed);
  command (status_count_set maya St_failed n_failed) ;;
  n_canceled <- gets (count_status St_canceled);
  command (status_count_set maya St_canceled n_canceled) ;;
  n_not <- gets (count_status St_not);
  command (status_count_set maya St_not n_not).

Definition _populate_list : M St unit :=
  sel_labels <- query (tsl_selected_items maya);
  sel_ns_keep <- gets (fun w => labels_to_namespaces (_LABEL2NS w) sel_labels);
  modify (set_labels [] ∅) ;;
  flags <- _collect_filter_flags;
  let '(txt, hide_baked, show_only_marked) := flags in
  command (tsl_remove_all maya) ;;
  rigs <- gets _RIGS_CACHE;
  for_each (fun rig => modify (populate_row txt hide_baked show_only_marked rig)) rigs ;;
  labels <- gets _LIST_LABELS;
  for_each (fun l => command (tsl_append maya l)) labels ;;
  (match sel_ns_keep with
   | [] => ret tt
   | _ =>
       indices <- gets (fun w => rows_to_select (_LABEL2NS w) sel_ns_keep 1 labels);
       match indices with
       | [] => ret tt
       | _ => command (tsl_select_indices maya indices)
       end
   end) ;;
  _update_counts.

(** *** Marking *)

Definition _selected_namespaces : M St (list string) :=
  labels <- query (tsl_selected_items maya);
  gets (fun w => labels_to_namespaces (_LABEL2NS w) labels).

(** [_MARKED_NS.add(ns)] *)
Definition marked_add (ns : string) (w : St) : St :=
  set_MARKED_NS ({[ns]} ∪ _MARKED_NS w) w.

(** [_MARKED_NS.discard(ns)] *)
Definition marked_discard (ns : string) (w : St) : St :=
  set_MARKED_NS (_MARKED_NS w ∖ {[ns]}) w.

Definition marked_toggle (ns : string) (w : St) : St :=
  if decide (ns ∈ _MARKED_NS w) then marked_discard ns w else marked_add ns w.

Definition _mark_selected : M St unit :=
  ns_list <- _selected_namespaces;
  match ns_list with
  | [] => ret tt
  | _ => for_each (fun ns => modify (marked_add ns)) ns_list ;; _populate_list
  end.

Definition _unmark_selected : M St unit :=
  ns_list <- _selected_namespaces;
  match ns_list with
  | [] => ret tt
  | _ => for_each (fun ns => modify (marked_discard ns)) ns_list ;; _populate_list
  end.

Definition _toggle_selected : M St unit :=
  ns_list <- _selected_namespaces;
  match ns_list with
  | [] => ret tt
  | _ => for_each (fun ns => modify (marked_toggle ns)) ns_list ;; _populate_list
  end.

Definition _clear_all_marks : M St unit :=
  marked <- gets (fun w => _MARKED_NS w);
  if decide (marked = ∅) then ret tt
  else modify (set_MARKED_NS ∅) ;; _populate_list.




(** *** Refresh *)

(** [{r['namespace'] for r in rigs if r.get('namespace')}] *)
Definition scene_namespaces (rigs : list Rig) : gset string :=
  list_to_set (omap (fun r => match namespace r with
                              | Some ns => if truthy ns then Some ns else None
                              | None => None
                              end) rigs).

Definition _refresh_rigs_cache : M St unit :=
  prev_marks <- gets (fun w => _MARKED_NS w);
  rigs <- list_scene_rigs;
  modify (set_RIGS_CACHE rigs) ;;
  modify (set_MARKED_NS (prev_marks ∩ scene_namespaces rigs)) ;;
  for_each
    (fun r => match namespace r with
              | Some ns =>
                  if truthy ns then _status_init_from_bind ns (bind_skeleton_driver r)
                  else ret tt
              | None => ret tt
              end)
    rigs.

(** *** The batch driver *)

(** [retarget.Retarget(...).batch(int(start_frame), int(end_frame), force=True)] *)
Definition retarget_call (ns : string) (start_frame end_frame : Z) : M St unit :=
  fun w =>
    match retarget_batch maya ns start_frame end_frame (host w) with
    | Ret _ h => Ret tt (log_bake_call (ns, start_frame, end_frame, true) (set_host h w))
    | Raise e h => Raise e (log_bake_call (ns, start_frame, end_frame, false) (set_host h w))
    end.

(** [try: cmds.progressWindow(e=True, progress=n); maya.utils.processIdleEvents()
    except Exception: pass] *)
Definition pump_progress (n : nat) : M St unit :=
  try_except
    (command (progressWindow_progress maya n) ;; commandE (processIdleEvents maya))
    (fun _ => ret tt).

(** The body of the loop of the driver, at [i] (from 1) and [ns]. *)
Definition bake_iteration (namespaces : list string) (start_frame end_frame : Z)
  (total i : nat) (ns : string) : M St ctl :=
  pump_progress (i - 1) ;;
  cancelled <- query (progressWindow_isCancelled maya);
  if cancelled : bool then
    for_each (fun rest => _status_set rest St_canceled) (drop (i - 1) namespaces) ;;
    ret Break
  else
    command (progressWindow_status maya ns i total) ;;
    bsd <- try_except (_read_bind_driver ns) (fun _ => ret (PyInt 0));
    try_finally
      (try_except
         (if eq_one bsd then _status_set ns St_skipped
          else retarget_call ns start_frame end_frame ;; _status_set ns St_baked)
         (fun _ => _status_set ns St_failed ;; warning (WFailedBaking ns)))
      (pump_progress i) ;;
    ret Continue.

Definition bake_loop (namespaces : list string) (start_frame end_frame : Z) : M St unit :=
  for_enumerate
    (bake_iteration namespaces start_frame end_frame (length namespaces)) 1 namespaces.

Definition bake_selected_actors_in_range_with_progress
  (namespaces : list string) (start_frame end_frame : Z) : M St pyval :=
  let total := length namespaces in
  if Nat.eqb total 0 then ret PyNone
  else
    try_finally
      (command (progressWindow_begin maya total) ;;
       bake_loop namespaces start_frame end_frame)
      (try_except (command (progressWindow_end maya)) (fun _ => ret tt)) ;;
    _populate_list ;;
    ret PyNone.

(** *** Muting and restoring broken expressions *)

Definition _list_broken_expressions : M St (list (string * list string)) :=
  exprs <- query (ls_type maya "expression");
  found <- for_collect
    (fun ex =>
       read <- try_except
                 (txt <- queryE (getAttr_expression maya (ex +:+ ".expression"));
                  ret (Some txt))
                 (fun _ => ret None);
       match read with
       | None => ret None
       | Some txt =>
           let nodes := referenced_nodes maya txt in
           missing <- gets (fun w => List.filter
                                       (fun n => negb (objExists maya n (host w))) nodes);
           match missing with
           | [] => ret None
           | _ => ret (Some (ex, missing))
           end
       end)
    exprs;
  ret (omap id found).

(** [d[k] = v] on a dict kept in insertion order. *)
Fixpoint dict_set (k v : string) (d : list (string * string)) : list (string * string) :=
  match d with
  | [] => [(k, v)]
  | (k', v') :: tl => if String.eqb k k' then (k, v) :: tl else (k', v') :: dict_set k v tl
  end.

(** [_muted_expr_backup[ex] = txt] *)
Definition backup_setitem (ex txt : string) : M St unit :=
  b <- gets (fun w => _muted_expr_backup w);
  match b with
  | None => raise (NameError "_muted_expr_backup")
  | Some d => modify (set_muted_expr_backup (Some (dict_set ex txt d)))
  end.

Definition mute_broken_expressions : M St (list (string * list string)) :=
  modify (set_muted_expr_backup (Some [])) ;;
  broken <- _list_broken_expressions;
  for_each
    (fun '(ex, _missing) =>
       try_except
         (txt <- queryE (getAttr_expression maya (ex +:+ ".expression"));
          backup_setitem ex txt ;;
          commandE (expression_edit maya ex ""))
         (fun _ => warning (WCouldNotMute ex)))
    broken ;;
  ret broken.

Definition restore_muted_expressions : M St unit :=
  b <- gets (fun w => _muted_expr_backup w);
  match b with
  | None => raise (NameError "_muted_expr_backup")
  | Some items =>
      for_each
        (fun '(ex, txt) =>
           there <- query (objExists maya ex);
           if there : bool then
             try_except (commandE (expression_edit maya ex txt))
                        (fun _ => warning (WCouldNotRestore ex))
           else ret tt)
        items ;;
      modify (set_muted_expr_backup (Some []))
  end.

(** *** Frame range *)

Definition liftE {A} (r : exn + A) : M St A :=
  match r with
  | inr a => ret a
  | inl e => raise e
  end.

(** One tier of [_read_cam_attr_int]: [Some z] is [return z]; an exception
    inside the tier is swallowed ([except Exception: pass]). *)
Definition tier (body : M St (option Z)) : M St (option Z) :=
  try_except body (fun _ => ret None).

Definition _read_cam_attr_int (cam attr : string) : M St Z :=
  r1 <- tier (v <- queryE (anim_camera_get_attr maya cam attr);
              match v with
              | PyNone => ret None
              | _ => z <- liftE (int_round_float v); ret (Some z)
              end);
  match r1 with
  | Some z => ret z
  | None =>
      r2 <- tier (let plug := cam +:+ "." +:+ attr in
                  there <- query (objExists maya plug);
                  if there : bool then
                    v <- queryE (getAttr maya plug);
                    z <- liftE (int_round_float v); ret (Some z)
                  else ret None);
      match r2 with
      | Some z => ret z
      | None =>
          r3 <- tier (shapes <- queryE (listRelatives_shapes maya cam);
                      match shapes with
                      | [] => ret None
                      | shp :: _ =>
                          if negb (truthy shp) then ret None
                          else
                            there <- query (objExists maya (shp +:+ "." +:+ attr));
                            if there : bool then
                              v <- queryE (getAttr maya (shp +:+ "." +:+ attr));
                              z <- liftE (int_round_float v); ret (Some z)
                            else ret None
                      end);
          match r3 with
          | Some z => ret z
          | None => raise (RuntimeError ("Missing '" +:+ attr +:+ "' on " +:+ cam))
          end
      end
  end.

Definition get_start_frame_from_layout_cam (camera : string) (pre_frame : Z) : M St Z :=
  start <- _read_cam_attr_int camera "headIn";
  ret (start - pre_frame)%Z.

Definition get_end_frame_from_layout_cam (camera : string) (post_frame : Z) : M St Z :=
  end_ <- _read_cam_attr_int camera "tailOut";
  ret (end_ + post_frame)%Z.

Definition _validate_range (start_frame end_frame : Z) : M St (Z * Z) :=
  (if (end_frame <? start_frame)%Z then warning WSwapRange else ret tt) ;;
  ret (Z.min start_frame end_frame, Z.max start_frame end_frame).

Definition _TIME_EDITOR_TYPES : list string :=
  ["timeEditor"; "timeEditorTracks"; "timeEditorClip"; "timeEditorSubTrack";
   "timeEditorAnimTrack"; "timeEditorAnimSource"; "timeEditorClipBlend"].

Definition delete_time_editor_content : M St (list string) :=
  per_type <- for_collect
    (fun t =>
       nodes <- query (ls_type maya t);
       match nodes with
       | [] => ret []
       | _ => try_except (commandE (delete_nodes maya nodes) ;; ret nodes)
                         (fun _ => warning (WFailedDeleteTE t) ;; ret [])
       end)
    _TIME_EDITOR_TYPES;
  ret (concat per_type).

(** The timeline range with padding. *)
Definition timeline_range (pre post : Z) : M St (Z * Z) :=
  min_t <- query (playbackOptions_min maya);
  max_t <- query (playbackOptions_max maya);
  ret (min_t - pre, max_t + post)%Z.

(** The [# Compute range] block of [_on_run_bake]; [None] is the [return]
    that leaves [_on_run_bake] without a range. *)
Definition compute_range (method pre post : Z) (allow_fallback : bool)
  : M St (option (Z * Z)) :=
  try_except
    (if (method =? 1)%Z then
       let normalize l := str_replace maya "  (HT)" "" l in
       first_label <- query (optionMenu_value maya "om_first");
       last_label <- query (optionMenu_value maya "om_last");
       try_except
         (start_frame <- get_start_frame_from_layout_cam (normalize first_label) pre;
          end_frame <- get_end_frame_from_layout_cam (normalize last_label) post;
          ret (Some (start_frame, end_frame)))
         (fun _ =>
            if negb allow_fallback then warning WFailedReadHeadTail ;; ret None
            else
              r <- timeline_range pre post;
              warning (WTimelineFallback (fst r) (snd r)) ;;
              ret (Some r))
     else if (method =? 2)%Z then
       r <- timeline_range pre post; ret (Some r)
     else
       s <- query (intField_value maya "if_start");
       e <- query (intField_value maya "if_end");
       ret (Some (s - pre, e + post)%Z))
    (fun _ => warning WCouldNotComputeRange ;; ret None).

(** *** Run bake *)

(** [[x for x in l if p x]] with a predicate that reads the host. *)
Fixpoint for_filter {A} (p : A -> M St bool) (l : list A) : M St (list A) :=
  match l with
  | [] => ret []
  | x :: tl =>
      b <- p x;
      rest <- for_filter p tl;
      ret (if b : bool then x :: rest else rest)
  end.

(** The part of [_on_run_bake] that follows the range computation. *)
Definition run_bake_with_range (bake_namespaces : list string)
  (mute_expr restore_expr wipe_te skip_baked : bool) (range : Z * Z) : M St pyval :=
  r <- _validate_range (fst range) (snd range);
  let start_frame := fst r in
  let end_frame := snd r in
  (if wipe_te then delete_time_editor_content ;; ret tt else ret tt) ;;
  muted <- (if mute_expr then mute_broken_expressions else ret []);
  command (currentTime_set maya start_frame) ;;
  command (playbackOptions_set maya start_frame end_frame) ;;
  (match bake_namespaces with
   | _ :: _ =>
       to_bake <-
         (if skip_baked then
            let pre := bake_namespaces in
            kept <- for_filter (fun ns => bsd <- _read_bind_driver ns; ret (ne_one bsd)) pre;
            for_each (fun ns => if bool_decide (ns ∈ kept) then ret tt
                                else _status_set ns St_skipped) pre ;;
            ret kept
          else ret bake_namespaces);
       bake_selected_actors_in_range_with_progress to_bake start_frame end_frame
   | [] =>
       all_actors <- queryE (get_all_actors_in_scene maya);
       let ns_list := omap (fun a => match a_namespace a with
                                     | Some ns => if truthy ns then Some ns else None
                                     | None => None
                                     end) all_actors in
       bake_selected_actors_in_range_with_progress ns_list start_frame end_frame
   end) ;;
  (match muted with
   | _ :: _ => if restore_expr then restore_muted_expressions else ret tt
   | [] => ret tt
   end) ;;
  command (inViewMessage maya start_frame end_frame) ;;
  _populate_list ;;
  _update_counts ;;
  ret PyNone.

Definition _on_run_bake : M St pyval :=
  prepost_enabled <- query (checkBox_value maya "cb_prepost_enable");
  pre <- (if prepost_enabled : bool then query (intField_value maya "if_pre") else ret 0%Z);
  post <- (if prepost_enabled : bool then query (intField_value maya "if_post") else ret 0%Z);
  method <- query (radioButtonGrp_select maya);
  allow_fallback <- query (checkBox_value maya "cb_fallback");
  mute_expr <- query (checkBox_value maya "cb_mute");
  restore_expr <- query (checkBox_value maya "cb_restore");
  wipe_te <- query (checkBox_value maya "cb_timeeditor");
  skip_baked <- query (checkBox_value maya "cb_skip_baked");
  bake_namespaces <- gets (fun w => sorted (elements (_MARKED_NS w)));
  go_on <- match bake_namespaces with
           | [] =>
               res <- query (confirmDialog maya "Bake All Rigs?");
               if String.eqb res "Yes, bake all" then ret true
               else warning WBakeCanceledNoMarks ;; ret false
           | _ => ret true
           end;
  if negb go_on then ret PyNone
  else
    wipe_te <- (if wipe_te : bool then
                  res <- query (confirmDialog maya "Delete Time Editor?");
                  ret (String.eqb res "Yes, delete")
                else ret false);
    range <- compute_range method pre post allow_fallback;
    match range with
    | None => ret PyNone
    | Some r =>
        run_bake_with_range bake_namespaces mute_expr restore_expr wipe_te skip_baked r
    end.

(** [open_bake_ui], after the window is built: [_refresh_rigs_cache();
    _populate_list()]. *)
Definition open_bake_ui_init : M St unit :=
  _refresh_rigs_cache ;; _populate_list.

(** The globals when the module is loaded: [_UI = {}], [_RIGS_CACHE = []],
    [_MARKED_NS = set()], [_STATUS = {}], and no binding yet for
    [_muted_expr_backup]. *)
Definition module_globals (h : H) : St :=
  {| host := h; _STATUS := ∅; _MARKED_NS := ∅; _RIGS_CACHE := [];
     _LIST_LABELS := []; _LABEL2NS := ∅; _muted_expr_backup := None;
     bake_calls := []; warnings := [] |}.

End Burrito.

(** ** Notions used by the statements *)

Section Notions.

Context {H : Type} (maya : Maya H).

Local Abbreviation St := (World H).

(** The state an outcome leaves behind. *)
Definition state_after {A} (r : Res St A) : St :=
  match r with
  | Ret _ w => w
  | Raise _ w => w
  end.

(** Baked, Skipped, Failed or Canceled. *)
Definition is_terminal (s : Status) : bool :=
  match s with
  | St_not => false
  | _ => true
  end.

(** The ids of the inventory snapshot. *)
Definition inventory (w : St) : gset string := scene_namespaces (_RIGS_CACHE w).


(** Every row of the visible list stands for an id of the inventory. *)
Definition labels_ok (w : St) : Prop :=
  ∀ l ns, _LABEL2NS w !! l = Some ns → ns ∈ inventory w.


(** The marked set, the inventory and the rows of the list are kept. *)
Definition keeps_registry (w w' : St) : Prop :=
  _MARKED_NS w' = _MARKED_NS w ∧ _RIGS_CACHE w' = _RIGS_CACHE w
  ∧ (labels_ok w → labels_ok w').




(** The state in which a loop with [break] arrives after the items of [l],
    when none of their iterations broke out or raised. *)
Fixpoint run_items (body : nat -> string -> M St ctl) (i : nat) (l : list string)
  (w : St) : option St :=
  match l with
  | [] => Some w
  | x :: tl =>
      match body i x w with
      | Ret Continue w' => run_items body (S i) tl w'
      | _ => None
      end
  end.

(** The state of the driver's loop when it arrives at index [k] (from 0). *)
Definition arrives_at (namespaces : list string) (start_frame end_frame : Z)
  (k : nat) (w : St) : option St :=
  run_items (bake_iteration maya namespaces start_frame end_frame (length namespaces))
            1 (take k namespaces) w.

(** The cancellation poll of the checkpoint at index [k], taken in [w]. *)
Definition cancel_observed (k : nat) (w : St) : bool :=
  progressWindow_isCancelled maya (host (state_after (pump_progress maya k w))).

(** A session of refreshes; before each one the host does as it pleases. *)
Fixpoint refresh_seq (events : list (H -> H)) : M St unit :=
  match events with
  | [] => ret tt
  | ev :: tl =>
      bind (command ev) (fun _ =>
      bind (_refresh_rigs_cache maya) (fun _ => refresh_seq tl))
  end.

(** [for x in l: _status_set(x, s)] on the status map. *)
Definition status_set_all (l : list string) (s : Status)
  (st : gmap string Status) : gmap string Status :=
  foldl (fun st x => status_set x s st) st l.

(** The seeding loop of [_refresh_rigs_cache] on the status map. *)
Definition seed_all (rigs : list Rig) (st : gmap string Status) : gmap string Status :=
  foldl (fun st r => match namespace r with
                     | Some ns => if truthy ns
                                  then status_init_from_bind ns (bind_skeleton_driver r) st
                                  else st
                     | None => st
                     end) st rigs.

(** The state an iteration of the driver's loop leaves when it does not
    break out: the host has moved on, [ns] has its outcome, and the logs
    have grown. *)
Definition item_done (ns : string) (outcome : Status) (h : H)
  (calls : list (string * Z * Z * bool)) (warns : list Warning) (w : St) : St :=
  {| host := h; _STATUS := status_set ns outcome (_STATUS w);
     _MARKED_NS := _MARKED_NS w; _RIGS_CACHE := _RIGS_CACHE w;
     _LIST_LABELS := _LIST_LABELS w; _LABEL2NS := _LABEL2NS w;
     _muted_expr_backup := _muted_expr_backup w;
     bake_calls := bake_calls w ++ calls; warnings := warnings w ++ warns |}.

(** How an iteration ended for its item: skipped on the flag, baked after
    a call that returned, or failed after a call that raised. *)
Definition item_case (ns : string) (s e : Z) (bsd : pyval) (outcome : Status)
  (calls : list (string * Z * Z * bool)) (warns : list Warning) : Prop :=
  (eq_one bsd = true ∧ outcome = St_skipped ∧ calls = [] ∧ warns = []) ∨
  (eq_one bsd = false ∧ outcome = St_baked ∧ calls = [(ns, s, e, true)] ∧ warns = []) ∨
  (eq_one bsd = false ∧ outcome = St_failed ∧ calls = [(ns, s, e, false)]
   ∧ warns = [WFailedBaking ns]).

(** Everything but the host and the visible list is as before. *)
Definition core_same (w w' : St) : Prop :=
  _STATUS w' = _STATUS w ∧ _MARKED_NS w' = _MARKED_NS w
  ∧ _RIGS_CACHE w' = _RIGS_CACHE w
  ∧ _muted_expr_backup w' = _muted_expr_backup w
  ∧ bake_calls w' = bake_calls w ∧ warnings w' = warnings w.

(** The marks, the inventory, the visible list and the backup are as before. *)
Definition registry_same (w w' : St) : Prop :=
  _MARKED_NS w' = _MARKED_NS w ∧ _RIGS_CACHE w' = _RIGS_CACHE w
  ∧ _LIST_LABELS w' = _LIST_LABELS w ∧ _LABEL2NS w' = _LABEL2NS w
  ∧ _muted_expr_backup w' = _muted_expr_backup w.

(** [R] relates every state to the one a computation leaves from it,
    whether the computation returns or raises. *)
Definition always {A} (R : St -> St -> Prop) (m : M St A) : Prop :=
  ∀ w, R w (state_after (m w)).

(** The seed of [_status_init_from_bind]. *)
Definition seed (bind_driver : pyval) : Status :=
  if eq_one bind_driver then St_baked else St_not.

(** The options of the window as [_on_run_bake] reads them. *)
Definition pre_pad (w : St) : Z :=
  if checkBox_value maya "cb_prepost_enable" (host w)
  then intField_value maya "if_pre" (host w) else 0%Z.

Definition post_pad (w : St) : Z :=
  if checkBox_value maya "cb_prepost_enable" (host w)
  then intField_value maya "if_post" (host w) else 0%Z.

Definition wipe_confirmed (w : St) : bool :=
  if checkBox_value maya "cb_timeeditor" (host w)
  then String.eqb (confirmDialog maya "Delete Time Editor?" (host w)) "Yes, delete"
  else false.

(** Some rig is marked, or the operator agrees to bake them all. *)
Definition run_goes_on (w : St) : Prop :=
  sorted (elements (_MARKED_NS w)) ≠ []
  ∨ confirmDialog maya "Bake All Rigs?" (host w) = "Yes, bake all".

(** The range of the Timeline strategy with the padding of the window. *)
Definition timeline_padded (w : St) : Z * Z :=
  ((playbackOptions_min maya (host w) - pre_pad w)%Z,
   (playbackOptions_max maya (host w) + post_pad w)%Z).

(** The head or the tail attribute of the chosen cameras cannot be read. *)
Definition head_tail_unreadable (w : St) : Prop :=
  let normalize l := str_replace maya "  (HT)" "" l in
  (∃ e w', _read_cam_attr_int maya
             (normalize (optionMenu_value maya "om_first" (host w))) "headIn" w
           = Raise e w') ∨
  (∃ e w', _read_cam_attr_int maya
             (normalize (optionMenu_value maya "om_last" (host w))) "tailOut" w
           = Raise e w').

End Notions.

(** ** The selective bake without progress, and the range preview *)

Section Others.

Context {H : Type} (maya : Maya H).

Local Abbreviation St := (World H).
Local Open Scope py_scope.

(** The helper that bakes a list of namespaces without progress window and
    without status bookkeeping; [skip_if_baked] defaults to [True]. *)
Definition bake_selected_actors_in_range (namespaces : list string)
  (start_frame end_frame : Z) (skip_if_baked : bool) : M St unit :=
  match namespaces with
  | [] => ret tt
  | _ =>
      for_each
        (fun ns =>
           bsd <- _read_bind_driver maya ns;
           if skip_if_baked && eq_one bsd then ret tt
           else try_except (retarget_call maya ns start_frame end_frame)
                           (fun _ => warning (WFailedBaking ns)))
        namespaces
  end.

Definition _compute_preview_range : M St (Z * Z) :=
  method <- query (radioButtonGrp_select maya);
  prepost_enabled <- query (checkBox_value maya "cb_prepost_enable");
  pre <- (if prepost_enabled : bool then query (intField_value maya "if_pre") else ret 0%Z);
  post <- (if prepost_enabled : bool then query (intField_value maya "if_post") else ret 0%Z);
  if (method =? 1)%Z then
    let normalize l := str_replace maya "  (HT)" "" l in
    first_label <- query (optionMenu_value maya "om_first");
    last_label <- query (optionMenu_value maya "om_last");
    sf <- get_start_frame_from_layout_cam maya (normalize first_label) pre;
    ef <- get_end_frame_from_layout_cam maya (normalize last_label) post;
    ret (sf, ef)
  else if (method =? 2)%Z then
    min_t <- query (playbackOptions_min maya);
    max_t <- query (playbackOptions_max maya);
    ret (min_t - pre, max_t + post)%Z
  else
    start <- query (intField_value maya "if_start");
    end_ <- query (intField_value maya "if_end");
    ret (start - pre, end_ + post)%Z.

(** The namespace, the range and the outcome of an entry of the call log. *)
Definition call_ns (c : string * Z * Z * bool) : string := c.1.1.1.
Definition call_range (c : string * Z * Z * bool) : Z * Z := (c.1.1.2, c.1.2).
Definition call_ok (c : string * Z * Z * bool) : bool := c.2.

(** The warnings the driver logs for the calls that raised. *)
Definition failure_warnings (calls : list (string * Z * Z * bool)) : list Warning :=
  omap (fun c => if call_ok c then None else Some (WFailedBaking (call_ns c))) calls.

(** The rig [r] of the cache passes the filters of the window and gives the
    row [label] for the namespace [ns]. *)
Definition rig_row (w : St) (txt : string) (hide_baked show_only_marked : bool)
  (r : Rig) (label ns : string) : Prop :=
  namespace r = Some ns ∧ truthy ns = true
  ∧ label = _rig_pretty_label ns (actor_name r) w
  ∧ (hide_baked = true → eq_one (bind_skeleton_driver r) = false)
  ∧ (show_only_marked = true → ns ∈ _MARKED_NS w)
  ∧ (txt ≠ "" → is_substring (str_lower maya txt) (str_lower maya label) = true).

(** The filters as [_populate_list] reads them in [w]. *)
Definition shown_in (w : St) (label ns : string) : Prop :=
  ∃ r, r ∈ _RIGS_CACHE w
       ∧ rig_row w (textField_text maya (host w))
           (checkBox_value maya "cb_hide_baked" (host w))
           (checkBox_value maya "cb_show_only_marked" (host w)) r label ns.

(** Statuses, marks, cache, rows and call log are as before: what the code
    around the expressions and the Time Editor never touches. *)
Definition bookkeeping_same (w w' : St) : Prop :=
  _STATUS w' = _STATUS w ∧ _MARKED_NS w' = _MARKED_NS w
  ∧ _RIGS_CACHE w' = _RIGS_CACHE w ∧ _LIST_LABELS w' = _LIST_LABELS w
  ∧ _LABEL2NS w' = _LABEL2NS w ∧ bake_calls w' = bake_calls w.

End Others.

(** ** The camera listing *)

Set Implicit Arguments.
Set Maximal Implicit Insertion.

(** What the camera listing uses of the host beyond [Maya]: [cmds.nodeType],
    [cmds.listRelatives(node, parent=True, type='transform')] and the
    studio's [list_scene_cameras]; each may raise. *)
Record MayaCameras (H : Type) := {
  nodeType : string -> H -> exn + string;
  listRelatives_parents : string -> H -> exn + list string;
  list_scene_cameras : H -> exn + list string
}.

(** An entry of [list_cameras_with_head_tail()]. *)
Record CamHT := { cam : string; headIn : Z; tailOut : Z }.

Unset Maximal Implicit Insertion.
Unset Implicit Arguments.

#[global] Instance CamHT_eq_dec : EqDecision CamHT.
Proof. solve_decision. Defined.

(** [list(dict.fromkeys(l))]: the first occurrence of each element, in order. *)
Definition dict_fromkeys (l : list string) : list string :=
  foldl (fun acc x => if bool_decide (x ∈ acc) then acc else acc ++ [x]) [] l.

Section Cameras.

Context {H : Type} (maya : Maya H) (cameras : MayaCameras H).

Local Abbreviation St := (World H).
Local Open Scope py_scope.

(** [any(p x for x in l)]: stops at the first element that satisfies [p]. *)
Fixpoint for_any {A} (p : A -> M St bool) (l : list A) : M St bool :=
  match l with
  | [] => ret false
  | x :: tl => b <- p x; if b : bool then ret true else for_any p tl
  end.

Definition _as_camera_transform (node : string) : M St (option string) :=
  if negb (truthy node) then ret None
  else
    there <- query (objExists maya node);
    if negb there then ret None
    else
      nt <- queryE (nodeType cameras node);
      if String.eqb nt "transform" then
        shapes <- queryE (listRelatives_shapes maya node);
        found <- for_any (fun s => t <- queryE (nodeType cameras s);
                                   ret (String.eqb t "camera")) shapes;
        if found : bool then ret (Some node) else ret None
      else if String.eqb nt "camera" then
        parents <- queryE (listRelatives_parents cameras node);
        ret (head parents)
      else ret None.

(** [t and cams.append(t)] over the candidates of one loop. *)
Definition camera_candidates (nodes : list string) : M St (list string) :=
  found <- for_collect _as_camera_transform nodes;
  ret (omap (fun t => match t with
                      | Some s => if truthy s then Some s else None
                      | None => None
                      end) found).

Definition list_all_camera_transforms : M St (list string) :=
  from_layout <- queryE (list_scene_cameras cameras);
  cams1 <- camera_candidates from_layout;
  shapes <- query (ls_type maya "camera");
  cams2 <- camera_candidates shapes;
  ret (dict_fromkeys (cams1 ++ cams2)).

Definition list_cameras_with_head_tail : M St (list CamHT) :=
  cams <- list_all_camera_transforms;
  found <- for_collect
    (fun c =>
       try_except
         (h <- _read_cam_attr_int maya c "headIn";
          t <- _read_cam_attr_int maya c "tailOut";
          ret (Some {| cam := c; headIn := h; tailOut := t |}))
         (fun _ => ret None))
    cams;
  ret (omap id found).

End Cameras.

(** ** A small host to run the module on *)

(** A scene with rigs, expressions and a timeline, the tool's list and
    check boxes, and an operator who may press cancel while the event pump
    runs. *)
Record Scene := {
  sc_nodes : gset string;
  sc_attrs : gmap string pyval;
  sc_expressions : list (string * string);
  sc_actors : list Actor;
  sc_failing : gset string;
  sc_ticks : nat;
  sc_cancel_at : option nat;
  sc_rows : list string;
  sc_selected : list nat;
  sc_checked : gset string;
  sc_ints : gmap string Z;
  sc_menus : gmap string string;
  sc_method : Z;
  sc_timeline : Z * Z;
  sc_filter : string;
  sc_answer : string
}.

#[global] Instance Scene_eq_dec : EqDecision Scene.
Proof. solve_decision. Defined.

Definition sc_with_expressions (l : list (string * string)) (s : Scene) : Scene :=
  {| sc_nodes := sc_nodes s; sc_attrs := sc_attrs s; sc_expressions := l;
     sc_actors := sc_actors s; sc_failing := sc_failing s; sc_ticks := sc_ticks s;
     sc_cancel_at := sc_cancel_at s; sc_rows := sc_rows s;
     sc_selected := sc_selected s; sc_checked := sc_checked s;
     sc_ints := sc_ints s; sc_menus := sc_menus s; sc_method := sc_method s;
     sc_timeline := sc_timeline s; sc_filter := sc_filter s;
     sc_answer := sc_answer s |}.

Definition sc_with_ticks (n : nat) (s : Scene) : Scene :=
  {| sc_nodes := sc_nodes s; sc_attrs := sc_attrs s;
     sc_expressions := sc_expressions s;
     sc_actors := sc_actors s; sc_failing := sc_failing s; sc_ticks := n;
     sc_cancel_at := sc_cancel_at s; sc_rows := sc_rows s;
     sc_selected := sc_selected s; sc_checked := sc_checked s;
     sc_ints := sc_ints s; sc_menus := sc_menus s; sc_method := sc_method s;
     sc_timeline := sc_timeline s; sc_filter := sc_filter s;
     sc_answer := sc_answer s |}.

Definition sc_with_list (rows : list string) (sel : list nat) (s : Scene) : Scene :=
  {| sc_nodes := sc_nodes s; sc_attrs := sc_attrs s;
     sc_expressions := sc_expressions s;
     sc_actors := sc_actors s; sc_failing := sc_failing s; sc_ticks := sc_ticks s;
     sc_cancel_at := sc_cancel_at s; sc_rows := rows;
     sc_selected := sel; sc_checked := sc_checked s;
     sc_ints := sc_ints s; sc_menus := sc_menus s; sc_method := sc_method s;
     sc_timeline := sc_timeline s; sc_filter := sc_filter s;
     sc_answer := sc_answer s |}.

Definition sc_with_timeline (r : Z * Z) (s : Scene) : Scene :=
  {| sc_nodes := sc_nodes s; sc_attrs := sc_attrs s;
     sc_expressions := sc_expressions s;
     sc_actors := sc_actors s; sc_failing := sc_failing s; sc_ticks := sc_ticks s;
     sc_cancel_at := sc_cancel_at s; sc_rows := sc_rows s;
     sc_selected := sc_selected s; sc_checked := sc_checked s;
     sc_ints := sc_ints s; sc_menus := sc_menus s; sc_method := sc_method s;
     sc_timeline := r; sc_filter := sc_filter s;
     sc_answer := sc_answer s |}.

(** The text of the expression behind a plug [node.expression]. *)
Fixpoint expr_lookup (plug : string) (l : list (string * string)) : option string :=
  match l with
  | [] => None
  | (ex, txt) :: tl =>
      if String.eqb plug (ex +:+ ".expression") then Some txt else expr_lookup plug tl
  end.

Fixpoint expr_update (ex txt : string) (l : list (string * string))
  : option (list (string * string)) :=
  match l with
  | [] => None
  | (ex', txt') :: tl =>
      if String.eqb ex ex' then Some ((ex, txt) :: tl)
      else option_map (cons (ex', txt')) (expr_update ex txt tl)
  end.

(** The node named before the first dot of an expression, if any: a
    stand-in for the regular expression of the scan. *)
Fixpoint before_dot (s : string) : option string :=
  match s with
  | EmptyString => None
  | String c tl =>
      if Ascii.eqb c "."%char then Some EmptyString
      else option_map (String c) (before_dot tl)
  end.

Definition scene_maya : Maya Scene := {|
  objExists n s := bool_decide (n ∈ sc_nodes s);
  attributeQuery_exists a n s := inr (bool_decide (is_Some (sc_attrs s !! (n +:+ "." +:+ a))));
  getAttr p s := match sc_attrs s !! p with
                 | Some v => inr v
                 | None => inl (HostError "getAttr")
                 end;
  getAttr_expression p s := match expr_lookup p (sc_expressions s) with
                            | Some t => inr t
                            | None => inl (HostError "getAttr")
                            end;
  listRelatives_shapes c s := inr [];
  anim_camera_get_attr c a s := inl (HostError "ctxCamera");
  get_all_actors_in_scene s := inr (sc_actors s);
  ls_type t s := if String.eqb t "expression" then (sc_expressions s).*1 else [];
  playbackOptions_min s := fst (sc_timeline s);
  playbackOptions_max s := snd (sc_timeline s);
  expression_edit ex txt s :=
    match expr_update ex txt (sc_expressions s) with
    | Some l => Ret tt (sc_with_expressions l s)
    | None => Raise (HostError "expression") s
    end;
  retarget_batch ns a b s :=
    if bool_decide (ns ∈ sc_failing s) then Raise (HostError "batch") s else Ret tt s;
  processIdleEvents s := Ret tt (sc_with_ticks (S (sc_ticks s)) s);
  delete_nodes l s := Ret tt s;
  currentTime_set t s := s;
  playbackOptions_set a b s := sc_with_timeline (a, b) s;
  progressWindow_begin n s := s;
  progressWindow_progress n s := s;
  progressWindow_status ns i n s := s;
  progressWindow_isCancelled s :=
    match sc_cancel_at s with
    | Some n => Nat.leb n (sc_ticks s)
    | None => false
    end;
  progressWindow_end s := s;
  window_exists s := true;
  tsl_selected_items s := omap (fun i => sc_rows s !! (i - 1)) (sc_selected s);
  tsl_remove_all s := sc_with_list [] [] s;
  tsl_append l s := sc_with_list (sc_rows s ++ [l]) (sc_selected s) s;
  tsl_select_indices l s := sc_with_list (sc_rows s) l s;
  textField_text s := sc_filter s;
  checkBox_value k s := bool_decide (k ∈ sc_checked s);
  intField_value k s := default 0%Z (sc_ints s !! k);
  radioButtonGrp_select s := sc_method s;
  optionMenu_value k s := default EmptyString (sc_menus s !! k);
  confirmDialog title s := sc_answer s;
  status_base_set a b c s := s;
  status_count_set st n s := s;
  inViewMessage a b s := s;
  str_lower t := t;
  str_replace a b t := t;
  referenced_nodes t := match before_dot t with Some n => [n] | None => [] end
|}.

(** A scene on the timeline 1..120: rigs with the reading of their
    [bind_skeleton_driver], the namespaces on which the retarget raises, the
    pump at which the operator's cancel registers, the checked boxes, the
    range source, and expression nodes with their text. *)
Definition make_scene (rigs : list (string * pyval)) (failing : list string)
  (cancel_at : option nat) (checked : list string) (method : Z)
  (expressions : list (string * string)) : Scene := {|
  sc_nodes := list_to_set ((fun r => fst r +:+ ":M_GlobalSwitch01_CTRL") <$> rigs)
              ∪ list_to_set (expressions.*1);
  sc_attrs := list_to_map
    ((fun r => (fst r +:+ ":M_GlobalSwitch01_CTRL.bind_skeleton_driver", snd r)) <$> rigs);
  sc_expressions := expressions;
  sc_actors := (fun r => {| a_namespace := Some (fst r); a_actor_name := EmptyString |})
               <$> rigs;
  sc_failing := list_to_set failing; sc_ticks := 0; sc_cancel_at := cancel_at;
  sc_rows := []; sc_selected := []; sc_checked := list_to_set checked;
  sc_ints := ∅; sc_menus := ∅; sc_method := method;
  sc_timeline := (1%Z, 120%Z); sc_filter := EmptyString; sc_answer := "Cancel"
|}.

(** The session once [open_bake_ui] has run on a scene. *)
Definition opened (s : Scene) : World Scene :=
  state_after (open_bake_ui_init scene_maya (module_globals s)).

(** The operator selects rows of the list. *)
Definition select_rows (sel : list nat) (w : World Scene) : World Scene :=
  set_host (sc_with_list (sc_rows (host w)) sel (host w)) w.

(** Rig A looks baked already, rig B does not. *)
Definition world_AB : World Scene :=
  opened (make_scene [("A", PyInt 1); ("B", PyInt 0)] [] None ["cb_skip_baked"] 2 []).

(** Five rigs; the retarget raises on x1; the cancel registers at the sixth
    pump, while x2 is being processed. *)
Definition world_x : World Scene :=
  opened (make_scene [("x0", PyInt 0); ("x1", PyInt 0); ("x2", PyInt 0);
                      ("x3", PyInt 0); ("x4", PyInt 0)]
            ["x1"] (Some 6) ["cb_skip_baked"] 2 []).

Definition ids_x : list string := ["x0"; "x1"; "x2"; "x3"; "x4"].

(** The state of the loop over [ids_x] when it arrives at x3. *)
Definition world_x_at3 : World Scene :=
  default world_x (arrives_at scene_maya ids_x 1 120 3 world_x).


(** One rig; the cancel registers at the second pump. *)
Definition world_a : World Scene :=
  opened (make_scene [("a", PyInt 0)] [] (Some 2) ["cb_skip_baked"] 2 []).

(** The state of the loop over the list a, a when it arrives at the second
    item. *)
Definition world_a_at1 : World Scene :=
  default world_a (arrives_at scene_maya ["a"; "a"] 1 120 1 world_a).

(** Rig B is marked and its row is selected. *)
Definition world_B_marked : World Scene :=
  state_after (_mark_selected scene_maya (select_rows [2] world_AB)).

(** Rig A looks baked, is marked, and "Skip rigs ... when baking" is
    unchecked. *)
Definition world_A_force : World Scene :=
  state_after (_mark_selected scene_maya
                 (select_rows [1]
                    (opened (make_scene [("A", PyInt 1)] [] None [] 2 [])))).

(** Range source "From Cameras", no camera with head or tail attributes,
    no fallback; rig B is marked. *)
Definition world_no_cameras : World Scene :=
  state_after (_mark_selected scene_maya
                 (select_rows [2]
                    (opened (make_scene [("A", PyInt 1); ("B", PyInt 0)]
                               [] None ["cb_skip_baked"] 1 [])))).

(** The same with "Allow fallback to Timeline" checked. *)
Definition world_no_cameras_fallback : World Scene :=
  state_after (_mark_selected scene_maya
                 (select_rows [2]
                    (opened (make_scene [("A", PyInt 1); ("B", PyInt 0)]
                               [] None ["cb_skip_baked"; "cb_fallback"] 1 [])))).

(** Two expressions on a missing node, muted. *)
Definition world_muted : World Scene :=
  state_after (mute_broken_expressions scene_maya
                 (module_globals
                    (make_scene [] [] None [] 2
                       [("e1", "ball.tx = 1"); ("e2", "ball.ty = 2")]))).


(** The operator types in the filter field, or answers the dialogs
    otherwise. *)
Definition sc_with_filter (t : string) (s : Scene) : Scene :=
  {| sc_nodes := sc_nodes s; sc_attrs := sc_attrs s;
     sc_expressions := sc_expressions s;
     sc_actors := sc_actors s; sc_failing := sc_failing s; sc_ticks := sc_ticks s;
     sc_cancel_at := sc_cancel_at s; sc_rows := sc_rows s;
     sc_selected := sc_selected s; sc_checked := sc_checked s;
     sc_ints := sc_ints s; sc_menus := sc_menus s; sc_method := sc_method s;
     sc_timeline := sc_timeline s; sc_filter := t;
     sc_answer := sc_answer s |}.

Definition sc_with_answer (a : string) (s : Scene) : Scene :=
  {| sc_nodes := sc_nodes s; sc_attrs := sc_attrs s;
     sc_expressions := sc_expressions s;
     sc_actors := sc_actors s; sc_failing := sc_failing s; sc_ticks := sc_ticks s;
     sc_cancel_at := sc_cancel_at s; sc_rows := sc_rows s;
     sc_selected := sc_selected s; sc_checked := sc_checked s;
     sc_ints := sc_ints s; sc_menus := sc_menus s; sc_method := sc_method s;
     sc_timeline := sc_timeline s; sc_filter := sc_filter s;
     sc_answer := a |}.

(** The same host with the studio's actor service down. *)
Definition scene_maya_offline : Maya Scene := {|
  objExists := objExists scene_maya;
  attributeQuery_exists := attributeQuery_exists scene_maya;
  getAttr := getAttr scene_maya;
  getAttr_expression := getAttr_expression scene_maya;
  listRelatives_shapes := listRelatives_shapes scene_maya;
  anim_camera_get_attr := anim_camera_get_attr scene_maya;
  get_all_actors_in_scene _ := inl (HostError "scene_actors");
  ls_type := ls_type scene_maya;
  playbackOptions_min := playbackOptions_min scene_maya;
  playbackOptions_max := playbackOptions_max scene_maya;
  expression_edit := expression_edit scene_maya;
  retarget_batch := retarget_batch scene_maya;
  processIdleEvents := processIdleEvents scene_maya;
  delete_nodes := delete_nodes scene_maya;
  currentTime_set := currentTime_set scene_maya;
  playbackOptions_set := playbackOptions_set scene_maya;
  progressWindow_begin := progressWindow_begin scene_maya;
  progressWindow_progress := progressWindow_progress scene_maya;
  progressWindow_status := progressWindow_status scene_maya;
  progressWindow_isCancelled := progressWindow_isCancelled scene_maya;
  progressWindow_end := progressWindow_end scene_maya;
  window_exists := window_exists scene_maya;
  tsl_selected_items := tsl_selected_items scene_maya;
  tsl_remove_all := tsl_remove_all scene_maya;
  tsl_append := tsl_append scene_maya;
  tsl_select_indices := tsl_select_indices scene_maya;
  textField_text := textField_text scene_maya;
  checkBox_value := checkBox_value scene_maya;
  intField_value := intField_value scene_maya;
  radioButtonGrp_select := radioButtonGrp_select scene_maya;
  optionMenu_value := optionMenu_value scene_maya;
  confirmDialog := confirmDialog scene_maya;
  status_base_set := status_base_set scene_maya;
  status_count_set := status_count_set scene_maya;
  inViewMessage := inViewMessage scene_maya;
  str_lower := str_lower scene_maya;
  str_replace := str_replace scene_maya;
  referenced_nodes := referenced_nodes scene_maya
|}.

(** Rigs A and B, and a text typed in the filter field that only the row
    of B (not baked) contains. *)
Definition world_AB_filtered : World Scene :=
  set_host (sc_with_filter "Not" (host world_AB)) world_AB.

(** Rigs A and B, both rows selected. *)
Definition world_AB_selected : World Scene := select_rows [1; 2] world_AB.

(** Nothing marked, the operator agrees to bake every rig, one broken
    expression to mute, and the actor service is down. *)
Definition world_offline : World Scene :=
  module_globals
    (sc_with_answer "Yes, bake all"
       (make_scene [] [] None ["cb_mute"; "cb_restore"] 2 [("e1", "ball.tx = 1")])).

(** ** Properties *)

Section Properties.

Context {H : Type} (maya : Maya H).

Local Abbreviation St := (World H).

(** *** Evaluation of the basic commands *)

Lemma world_eta (w : St) :
  {| host := host w; _STATUS := _STATUS w; _MARKED_NS := _MARKED_NS w;
     _RIGS_CACHE := _RIGS_CACHE w; _LIST_LABELS := _LIST_LABELS w;
     _LABEL2NS := _LABEL2NS w; _muted_expr_backup := _muted_expr_backup w;
     bake_calls := bake_calls w; warnings := warnings w |} = w.
Proof. destruct w; reflexivity. Qed.

Lemma set_STATUS_same (w : St) : set_STATUS (_STATUS w) w = w.
Proof. apply world_eta. Qed.

Lemma set_host_same (w : St) : set_host (host w) w = w.
Proof. apply world_eta. Qed.

Lemma pump_progress_ret n (w : St) :
  ∃ h, pump_progress maya n w = Ret tt (set_host h w).
Proof.
  unfold pump_progress, try_except, bind, command, commandE, ret; simpl.
  destruct (processIdleEvents maya _) as [[] h|e h]; eexists; reflexivity.
Qed.

Lemma read_bind_driver_ret ns (w : St) :
  ∃ v, _read_bind_driver maya ns w = Ret v w.
Proof.
  unfold _read_bind_driver, try_except, bind, query, queryE, ret; simpl.
  destruct (objExists maya _ _); [|eauto].
  destruct (attributeQuery_exists maya _ _ _) as [e|[]]; [eauto| |eauto].
  destruct (getAttr maya _ _); eauto.
Qed.

Lemma for_each_status_set l s (w : St) :
  for_each (fun x => _status_set x s) l w
  = Ret tt (set_STATUS (status_set_all l s (_STATUS w)) w).
Proof.
  revert w; induction l as [|x l IH]; intros w; simpl.
  - unfold ret. by rewrite set_STATUS_same.
  - unfold bind, _status_set, modify at 1. rewrite IH. reflexivity.
Qed.

Lemma status_set_all_notin l s st ns :
  ns ∉ l → status_set_all l s st !! ns = st !! ns.
Proof.
  revert st; induction l as [|x l IH]; intros st Hn; simpl; [done|].
  rewrite IH by set_solver. unfold status_set.
  destruct (truthy x); [|done]. apply lookup_insert_ne. set_solver.
Qed.

Lemma status_set_all_in l s st ns :
  ns ∈ l → truthy ns = true → status_set_all l s st !! ns = Some s.
Proof.
  revert st; induction l as [|x l IH]; intros st Hin Ht; simpl.
  { by apply elem_of_nil in Hin. }
  destruct (decide (ns ∈ l)) as [Hl|Hl]; [by apply IH|].
  rewrite status_set_all_notin by done.
  assert (ns = x) as <- by set_solver.
  unfold status_set. rewrite Ht. apply lookup_insert_eq.
Qed.

Lemma status_get_set ns s st :
  truthy ns = true → status_get (status_set ns s st) ns = s.
Proof. intros Ht. unfold status_get, status_set. rewrite Ht. by rewrite lookup_insert_eq. Qed.

Lemma status_set_other ns x s st :
  x ≠ ns → status_set ns s st !! x = st !! x.
Proof.
  intros Hne. unfold status_set. destruct (truthy ns); [|done].
  by apply lookup_insert_ne.
Qed.

Lemma bind_eval {A B} (m : M St A) (k : A -> M St B) (w : St) :
  bind m k w = match m w with
               | Ret a w' => k a w'
               | Raise e w' => Raise e w'
               end.
Proof. reflexivity. Qed.

Lemma try_except_eval {A} (body : M St A) (handler : exn -> M St A) (w : St) :
  try_except body handler w = match body w with
                              | Ret a w' => Ret a w'
                              | Raise e w' => handler e w'
                              end.
Proof. reflexivity. Qed.

Lemma try_finally_eval {A} (body : M St A) (fin : M St unit) (w : St) :
  try_finally body fin w
  = match body w with
    | Ret a w' => match fin w' with
                  | Ret _ w'' => Ret a w''
                  | Raise e w'' => Raise e w''
                  end
    | Raise e w' => match fin w' with
                    | Ret _ w'' => Raise e w''
                    | Raise e' w'' => Raise e' w''
                    end
    end.
Proof. reflexivity. Qed.

Lemma bind_ret {A B} (a : A) (k : A -> M St B) (w : St) : bind (ret a) k w = k a w.
Proof. reflexivity. Qed.
Lemma bind_query {A B} (f : H -> A) (k : A -> M St B) (w : St) :
  bind (query f) k w = k (f (host w)) w.
Proof. reflexivity. Qed.
Lemma bind_gets {A B} (f : St -> A) (k : A -> M St B) (w : St) :
  bind (gets f) k w = k (f w) w.
Proof. reflexivity. Qed.
Lemma bind_modify {B} (f : St -> St) (k : unit -> M St B) (w : St) :
  bind (modify f) k w = k tt (f w).
Proof. reflexivity. Qed.
Lemma bind_command {B} (f : H -> H) (k : unit -> M St B) (w : St) :
  bind (command f) k w = k tt (set_host (f (host w)) w).
Proof. reflexivity. Qed.
Lemma bind_warning {B} x (k : unit -> M St B) (w : St) :
  bind (warning x) k w = k tt (log_warning x w).
Proof. reflexivity. Qed.
Lemma bind_ret_eq {A B} (m : M St A) (k : A -> M St B) (w w' : St) a :
  m w = Ret a w' -> bind m k w = k a w'.
Proof. intros E. by rewrite bind_eval, E. Qed.
Lemma bind_raise_eq {A B} (m : M St A) (k : A -> M St B) (w w' : St) e :
  m w = Raise e w' -> bind m k w = Raise e w'.
Proof. intros E. by rewrite bind_eval, E. Qed.

Ltac mstep :=
  first [ rewrite bind_ret | rewrite bind_query | rewrite bind_gets
        | rewrite bind_modify | rewrite bind_command | rewrite bind_warning ];
  cbv beta.

Lemma collect_filter_flags_eval (w : St) :
  _collect_filter_flags maya w
  = Ret (textField_text maya (host w), checkBox_value maya "cb_hide_baked" (host w),
         checkBox_value maya "cb_show_only_marked" (host w)) w.
Proof. reflexivity. Qed.

(** *** One iteration of the driver's loop *)

Lemma bake_iteration_spec namespaces s e total i ns (w : St) :
  if cancel_observed maya (i - 1) w then
    ∃ h, bake_iteration maya namespaces s e total i ns w
         = Ret Break
             (set_host h (set_STATUS
                (status_set_all (drop (i - 1) namespaces) St_canceled (_STATUS w)) w))
  else
    ∃ bsd h outcome calls warns,
      bake_iteration maya namespaces s e total i ns w
      = Ret Continue (item_done ns outcome h calls warns w)
      ∧ (let w1 := state_after (pump_progress maya (i - 1) w) in
         let w2 := set_host (progressWindow_status maya ns i total (host w1)) w1 in
         _read_bind_driver maya ns w2 = Ret bsd w2)
      ∧ item_case ns s e bsd outcome calls warns.
Proof.
  destruct (pump_progress_ret (i - 1) w) as [h1 E1].
  unfold cancel_observed. rewrite E1. unfold state_after.
  change (host (set_host h1 w)) with h1.
  remember (bake_iteration maya namespaces s e total i ns w) as r eqn:Er.
  unfold bake_iteration in Er. rewrite bind_eval, E1 in Er.
  rewrite bind_eval in Er. unfold query at 1 in Er. cbv beta iota in Er.
  change (host (set_host h1 w)) with h1 in Er.
  destruct (progressWindow_isCancelled maya h1).
  - exists h1. rewrite bind_eval, for_each_status_set in Er. by subst r.
  - rewrite bind_eval in Er. unfold command at 1 in Er. cbv beta iota in Er.
    change (host (set_host h1 w)) with h1 in Er.
    set (w2 := set_host (progressWindow_status maya ns i total h1) (set_host h1 w)) in *.
    destruct (read_bind_driver_ret ns w2) as [bsd E2].
    rewrite bind_eval, try_except_eval, E2 in Er. cbv beta iota in Er.
    exists bsd.
    rewrite bind_eval, try_finally_eval, try_except_eval in Er.
    destruct (eq_one bsd) eqn:Eb.
    + unfold _status_set, modify in Er.
      match type of Er with context [pump_progress maya i ?x] =>
        destruct (pump_progress_ret i x) as [h3 E3]; rewrite E3 in Er end.
      exists h3, St_skipped, [], []. subst r. split; [|split; [done|]].
      * unfold item_done. rewrite !app_nil_r. reflexivity.
      * left. done.
    + rewrite bind_eval in Er. unfold retarget_call in Er.
      destruct (retarget_batch maya ns s e (host w2)) as [[] h'|err h'].
      * unfold _status_set, modify in Er.
        match type of Er with context [pump_progress maya i ?x] =>
          destruct (pump_progress_ret i x) as [h3 E3]; rewrite E3 in Er end.
        exists h3, St_baked, [(ns, s, e, true)], []. subst r. split; [|split; [done|]].
        -- unfold item_done. rewrite !app_nil_r. reflexivity.
        -- right; left. done.
      * rewrite bind_eval in Er. unfold _status_set, warning, modify in Er.
        match type of Er with context [pump_progress maya i ?x] =>
          destruct (pump_progress_ret i x) as [h3 E3]; rewrite E3 in Er end.
        exists h3, St_failed, [(ns, s, e, false)], [WFailedBaking ns]. subst r.
        split; [|split; [done|]].
        -- reflexivity.
        -- right; right. done.
Qed.

(** *** The visible list *)

Lemma for_each_modify {A} (f : A -> St -> St) l (w : St) :
  for_each (fun x => modify (f x)) l w = Ret tt (foldl (fun w x => f x w) w l).
Proof.
  revert w; induction l as [|x l IH]; intros w; simpl; [done|].
  rewrite bind_eval. unfold modify at 1. apply IH.
Qed.

Lemma for_each_command {A} (f : A -> H -> H) l (w : St) :
  ∃ h, for_each (fun x => command (f x)) l w = Ret tt (set_host h w).
Proof.
  revert w; induction l as [|x l IH]; intros w; simpl.
  - exists (host w). by rewrite set_host_same.
  - rewrite bind_eval. unfold command at 1.
    destruct (IH (set_host (f x (host w)) w)) as [h ->]. by exists h.
Qed.

Lemma update_counts_ret (w : St) : ∃ h, _update_counts maya w = Ret tt (set_host h w).
Proof. unfold _update_counts, bind, query, gets, command. simpl. eauto. Qed.

Lemma populate_row_inv txt hb som r (w : St) :
  let w' := populate_row maya txt hb som r w in
  core_same w w' ∧ host w' = host w ∧
  (∀ l ns, _LABEL2NS w' !! l = Some ns →
           _LABEL2NS w !! l = Some ns ∨ ns ∈ scene_namespaces [r]).
Proof.
  unfold populate_row, core_same, scene_namespaces. simpl.
  destruct (namespace r) as [ns|]; [|naive_solver].
  destruct (truthy ns) eqn:Ht; simpl; [|naive_solver].
  repeat match goal with |- context [if ?b then _ else _] => destruct b end;
    simpl; try naive_solver.
  repeat split; try done. intros l ns' Hl.
  destruct (decide (l = _rig_pretty_label ns (actor_name r) w)) as [->|Hne].
  - rewrite lookup_insert_eq in Hl. right. set_solver.
  - rewrite lookup_insert_ne in Hl by done. by left.
Qed.

Lemma scene_namespaces_app l1 l2 :
  scene_namespaces (l1 ++ l2) = scene_namespaces l1 ∪ scene_namespaces l2.
Proof. unfold scene_namespaces. rewrite omap_app, list_to_set_app_L. done. Qed.

Lemma populate_rows_inv txt hb som rigs (w : St) :
  let w' := foldl (fun w r => populate_row maya txt hb som r w) w rigs in
  core_same w w' ∧ host w' = host w ∧
  (∀ l ns, _LABEL2NS w' !! l = Some ns →
           _LABEL2NS w !! l = Some ns ∨ ns ∈ scene_namespaces rigs).
Proof.
  revert w; induction rigs as [|r rigs IH]; intros w; simpl.
  - unfold core_same. naive_solver.
  - destruct (IH (populate_row maya txt hb som r w)) as (Hc & Hh & Hl).
    destruct (populate_row_inv txt hb som r w) as (Hc' & Hh' & Hl').
    change (r :: rigs) with ([r] ++ rigs). rewrite scene_namespaces_app.
    unfold core_same in *. split; [|split].
    + naive_solver congruence.
    + congruence.
    + intros l ns Hlk. destruct (Hl _ _ Hlk) as [H1|H1]; [|set_solver].
      destruct (Hl' _ _ H1); [by left|set_solver].
Qed.

Lemma populate_list_ret (w : St) :
  ∃ w', _populate_list maya w = Ret tt w' ∧ core_same w w' ∧ labels_ok w'.
Proof.
  unfold _populate_list. repeat mstep.
  erewrite bind_ret_eq by apply collect_filter_flags_eval. cbv beta iota.
  repeat mstep.
  erewrite bind_ret_eq by apply for_each_modify. cbv beta.
  match goal with
  | |- context [foldl (fun v x => populate_row maya ?t ?hb ?som x v) ?wa ?l] =>
    pose proof (populate_rows_inv t hb som l wa) as Hinv;
    cbv zeta in Hinv;
    set (w3 := foldl (fun v x => populate_row maya t hb som x v) wa l) in *
  end.
  destruct Hinv as (Hc & _ & Hl).
  mstep.
  destruct (for_each_command (tsl_append maya) (_LIST_LABELS w3) w3) as [h4 E4].
  erewrite bind_ret_eq by apply E4. cbv beta.
  assert (Hgoal : ∀ h, ∃ w', _update_counts maya (set_host h w3) = Ret tt w'
                            ∧ core_same w w' ∧ labels_ok w').
  { intros h. destruct (update_counts_ret (set_host h w3)) as [h' ->].
    eexists; split; [reflexivity|].
    unfold core_same, labels_ok, inventory in *. simpl in *.
    split; [naive_solver|].
    intros l ns Hlk. destruct (Hl _ _ Hlk) as [Hin|Hin].
    - by rewrite lookup_empty in Hin.
    - destruct Hc as (_ & _ & -> & _). done. }
  destruct (labels_to_namespaces _ _); cbv iota.
  - mstep. apply Hgoal.
  - rewrite bind_eval, bind_gets.
    destruct (rows_to_select _ _ _ _); cbv iota beta; apply Hgoal.
Qed.

(** *** The loop of the driver *)

Lemma status_set_all_falsy l s st ns :
  truthy ns = false → status_set_all l s st !! ns = st !! ns.
Proof.
  revert st; induction l as [|x l IH]; intros st Hf; simpl; [done|].
  rewrite IH by done. unfold status_set.
  destruct (truthy x) eqn:Hx; [|done].
  apply lookup_insert_ne. intros ->. congruence.
Qed.

Lemma status_set_all_lookup l s st ns :
  status_set_all l s st !! ns
  = if bool_decide (ns ∈ l) && truthy ns then Some s else st !! ns.
Proof.
  destruct (truthy ns) eqn:Ht; case_bool_decide; simpl.
  - by apply status_set_all_in.
  - by apply status_set_all_notin.
  - by apply status_set_all_falsy.
  - by apply status_set_all_falsy.
Qed.

Lemma for_enumerate_cons (body : nat -> string -> M St ctl) i x tl (w : St) :
  for_enumerate body i (x :: tl) w
  = match body i x w with
    | Ret Continue w' => for_enumerate body (S i) tl w'
    | Ret Break w' => Ret tt w'
    | Raise e w' => Raise e w'
    end.
Proof. simpl. rewrite bind_eval. by destruct (body i x w) as [[]|]. Qed.

Lemma drop_cons_next {A} n (L : list A) x l : drop n L = x :: l → drop (S n) L = l.
Proof.
  intros Hd. replace (S n) with (n + 1) by lia.
  by rewrite <- drop_drop, Hd.
Qed.

Lemma item_case_terminal ns s e bsd outcome calls warns :
  item_case ns s e bsd outcome calls warns → is_terminal outcome = true.
Proof. intros [(_ & -> & _)|[(_ & -> & _)|(_ & -> & _)]]; done. Qed.

Lemma bake_loop_from namespaces s e total l :
  ∀ n (w : St), drop n namespaces = l →
  ∃ w', for_enumerate (bake_iteration maya namespaces s e total) (S n) l w = Ret tt w'
    ∧ registry_same w w'
    ∧ (∀ ns, ns ∈ l → truthy ns = true →
             is_terminal (status_get (_STATUS w') ns) = true)
    ∧ (∀ ns, is_terminal (status_get (_STATUS w) ns) = true →
             is_terminal (status_get (_STATUS w') ns) = true)
    ∧ (∀ ns, ns ∉ l → _STATUS w' !! ns = _STATUS w !! ns).
Proof.
  induction l as [|x l IH]; intros n w Hd.
  - exists w. unfold registry_same. simpl. split; [done|].
    split; [done|]. split; [|done]. intros ns Hin. by apply elem_of_nil in Hin.
  - pose proof (bake_iteration_spec namespaces s e total (S n) x w) as Hit.
    replace (S n - 1) with n in Hit by lia.
    rewrite for_enumerate_cons.
    destruct (cancel_observed maya n w).
    + destruct Hit as [h ->]. eexists. split; [reflexivity|].
      unfold registry_same, status_get. simpl. rewrite Hd.
      split; [done|]. split; [|split].
      * intros ns Hin Ht. rewrite status_set_all_lookup, Ht.
        by rewrite bool_decide_eq_true_2.
      * intros ns. rewrite status_set_all_lookup.
        by destruct (bool_decide (ns ∈ x :: l) && truthy ns).
      * intros ns Hn. rewrite status_set_all_lookup.
        by rewrite bool_decide_eq_false_2.
    + destruct Hit as (bsd & h & outcome & calls & warns & -> & _ & Hc).
      apply item_case_terminal in Hc.
      destruct (IH (S n) (item_done x outcome h calls warns w)) as (w' & -> & Hr & H1 & H2 & H3).
      { by eapply drop_cons_next. }
      exists w'. split; [done|]. unfold registry_same in *. simpl in *.
      split; [done|]. split; [|split].
      * intros ns Hin Ht. destruct (decide (ns ∈ l)) as [Hl|Hl]; [by apply H1|].
        assert (ns = x) as -> by set_solver.
        apply H2. by rewrite status_get_set.
      * intros ns Hns. apply H2. unfold status_get.
        destruct (decide (ns = x)) as [->|Hne].
        -- unfold status_set. destruct (truthy x); [|done].
           by rewrite lookup_insert_eq.
        -- by rewrite status_set_other.
      * intros ns Hn. rewrite H3 by set_solver.
        apply status_set_other. set_solver.
Qed.

(** *** The driver *)

Lemma driver_spec namespaces s e (w : St) :
  namespaces ≠ [] →
  ∃ w', bake_selected_actors_in_range_with_progress maya namespaces s e w = Ret PyNone w'
    ∧ _MARKED_NS w' = _MARKED_NS w ∧ _RIGS_CACHE w' = _RIGS_CACHE w
    ∧ _muted_expr_backup w' = _muted_expr_backup w
    ∧ labels_ok w'
    ∧ (∀ ns, ns ∈ namespaces → truthy ns = true →
             is_terminal (status_get (_STATUS w') ns) = true)
    ∧ (∀ ns, ns ∉ namespaces → _STATUS w' !! ns = _STATUS w !! ns).
Proof.
  intros Hne. unfold bake_selected_actors_in_range_with_progress.
  destruct namespaces as [|x l]; [done|]. cbv zeta.
  change (Nat.eqb (length (x :: l)) 0) with false. cbv iota.
  rewrite bind_eval, try_finally_eval, bind_command. cbv beta.
  unfold bake_loop.
  destruct (bake_loop_from (x :: l) s e (length (x :: l)) (x :: l) 0
              (set_host (progressWindow_begin maya (length (x :: l)) (host w)) w) eq_refl)
    as (w1 & -> & Hr & H1 & _ & H3).
  rewrite try_except_eval. unfold command at 1. cbv beta iota.
  rewrite bind_eval.
  destruct (populate_list_ret (set_host (progressWindow_end maya (host w1)) w1))
    as (w2 & -> & Hc & Hl).
  exists w2. split; [reflexivity|].
  unfold registry_same, core_same in *. simpl in *.
  destruct Hc as (Hs & Hm & Hrigs & Hb & _), Hr as (Hm' & Hrigs' & _ & _ & Hb').
  rewrite Hs. repeat split; try congruence; auto.
Qed.

Lemma driver_returns namespaces s e (w : St) :
  ∃ w', bake_selected_actors_in_range_with_progress maya namespaces s e w = Ret PyNone w'.
Proof.
  destruct namespaces as [|x l].
  - by exists w.
  - destruct (driver_spec (x :: l) s e w) as (w' & E & _); [done|]. by exists w'.
Qed.

(** C1 (as amended): for a non-empty list of ids, the driver returns
    normally, and then every id of the list has a terminal status (Baked,
    Skipped, Failed or Canceled) in [_STATUS], the status of every other id
    is as it was, and the value handed back is [None]: the final statuses
    are in the module's [_STATUS], not in the result. *)
Theorem C1_batch_leaves_terminal_statuses namespaces s e (w : St) :
  namespaces ≠ [] →
  Forall (fun ns => truthy ns = true) namespaces →
  ∃ w', bake_selected_actors_in_range_with_progress maya namespaces s e w = Ret PyNone w'
    ∧ (∀ ns, ns ∈ namespaces → is_terminal (status_get (_STATUS w') ns) = true)
    ∧ (∀ ns, ns ∉ namespaces → _STATUS w' !! ns = _STATUS w !! ns).
Proof.
  intros Hne Hids.
  destruct (driver_spec namespaces s e w Hne) as (w' & E & _ & _ & _ & _ & H1 & H2).
  exists w'. split; [done|]. split; [|done].
  intros ns Hin. apply H1; [done|].
  rewrite Forall_forall in Hids. by apply Hids.
Qed.

(** C10 (as amended): on an empty list the driver does nothing at all (no
    call to the retarget service, no status changed, the world is as it
    was) and hands back [None]. *)
Theorem C10_empty_batch_is_noop s e (w : St) :
  bake_selected_actors_in_range_with_progress maya [] s e w = Ret PyNone w.
Proof. reflexivity. Qed.


(** *** Arriving at an index of the loop *)

Lemma run_items_app (body : nat -> string -> M St ctl) l1 l2 :
  ∀ i (w : St),
  run_items body i (l1 ++ l2) w
  = match run_items body i l1 w with
    | Some w1 => run_items body (i + length l1) l2 w1
    | None => None
    end.
Proof.
  induction l1 as [|x l1 IH]; intros i w; simpl.
  - by rewrite Nat.add_0_r.
  - destruct (body i x w) as [[] w'|]; try done.
    rewrite IH. by replace (i + S (length l1)) with (S i + length l1) by lia.
Qed.

Lemma for_enumerate_run_items (body : nat -> string -> M St ctl) l1 l2 :
  ∀ i (w w1 : St),
  run_items body i l1 w = Some w1 →
  for_enumerate body i (l1 ++ l2) w = for_enumerate body (i + length l1) l2 w1.
Proof.
  induction l1 as [|x l1 IH]; intros i w w1 Hr; simpl in Hr.
  - injection Hr as ->. simpl. by rewrite Nat.add_0_r.
  - change ((x :: l1) ++ l2) with (x :: (l1 ++ l2)). rewrite for_enumerate_cons.
    destruct (body i x w) as [[] w'|]; try done.
    rewrite (IH _ _ _ Hr). simpl length.
    by replace (i + S (length l1)) with (S i + length l1) by lia.
Qed.

(** An iteration that goes on touches the status of its own item only. *)
Lemma bake_iteration_continue namespaces s e total i ns (w w' : St) :
  bake_iteration maya namespaces s e total i ns w = Ret Continue w' →
  ∃ outcome, _STATUS w' = status_set ns outcome (_STATUS w)
    ∧ outcome ∈ [St_baked; St_skipped; St_failed].
Proof.
  intros E. pose proof (bake_iteration_spec namespaces s e total i ns w) as Hit.
  destruct (cancel_observed maya (i - 1) w).
  - destruct Hit as [h E']. congruence.
  - destruct Hit as (bsd & h & outcome & calls & warns & E' & _ & Hc).
    rewrite E' in E. injection E as <-. exists outcome. split; [done|].
    destruct Hc as [(_ & -> & _)|[(_ & -> & _)|(_ & -> & _)]]; set_solver.
Qed.

Lemma run_items_frame namespaces s e total l :
  ∀ i (w w' : St) ns,
  run_items (bake_iteration maya namespaces s e total) i l w = Some w' →
  ns ∉ l → _STATUS w' !! ns = _STATUS w !! ns.
Proof.
  induction l as [|x l IH]; intros i w w' ns Hr Hn; simpl in Hr.
  - by injection Hr as ->.
  - destruct (bake_iteration maya namespaces s e total i x w) as [[] w1|] eqn:E;
      try done.
    rewrite (IH _ _ _ _ Hr) by set_solver.
    destruct (bake_iteration_continue _ _ _ _ _ _ _ _ E) as (o & -> & _).
    apply status_set_other. set_solver.
Qed.

Lemma run_items_last namespaces s e total l x :
  ∀ i (w w' : St),
  run_items (bake_iteration maya namespaces s e total) i (l ++ [x]) w = Some w' →
  truthy x = true →
  status_get (_STATUS w') x ∈ [St_baked; St_skipped; St_failed].
Proof.
  intros i w w' Hr Ht. rewrite run_items_app in Hr.
  destruct (run_items _ i l w) as [w1|]; [|done]. simpl in Hr.
  destruct (bake_iteration maya namespaces s e total (i + length l) x w1)
    as [[] w2|] eqn:E; try done.
  injection Hr as <-.
  destruct (bake_iteration_continue _ _ _ _ _ _ _ _ E) as (o & -> & Ho).
  by rewrite status_get_set.
Qed.

Lemma take_split {A} j k (l : list A) :
  S j ≤ k → take k l = take (S j) l ++ drop (S j) (take k l).
Proof.
  intros Hjk. rewrite <- (take_drop (S j) (take k l)) at 1.
  rewrite take_take. by replace (S j `min` k) with (S j) by lia.
Qed.

(** C3 (as amended): for a list of distinct ids, when the loop arrives at
    index [k] and the poll of that checkpoint reports a cancellation, the
    loop ends there: every item at an index from [k] on is Canceled, no
    further call goes to the retarget service, and every item before [k]
    has the status (Baked, Skipped or Failed) that its own iteration left. *)
Theorem C3_cancellation_at_index namespaces s e k (w wk : St) :
  NoDup namespaces →
  Forall (fun ns => truthy ns = true) namespaces →
  k < length namespaces →
  arrives_at maya namespaces s e k w = Some wk →
  cancel_observed maya k wk = true →
  ∃ wf, bake_loop maya namespaces s e w = Ret tt wf
    ∧ (∀ j ns, k ≤ j → namespaces !! j = Some ns →
               status_get (_STATUS wf) ns = St_canceled)
    ∧ (∀ j ns, j < k → namespaces !! j = Some ns →
         ∃ wj, arrives_at maya namespaces s e (S j) w = Some wj
           ∧ status_get (_STATUS wf) ns = status_get (_STATUS wj) ns
           ∧ status_get (_STATUS wf) ns ∈ [St_baked; St_skipped; St_failed])
    ∧ bake_calls wf = bake_calls wk.
Proof.
  intros Hnd Hids Hk Harr Hcan. unfold arrives_at in *.
  set (body := bake_iteration maya namespaces s e (length namespaces)) in *.
  assert (Hlen : length (take k namespaces) = k) by (rewrite length_take; lia).
  destruct (drop k namespaces) as [|x rest] eqn:Hd.
  { apply (f_equal length) in Hd. rewrite length_drop in Hd. simpl in Hd. lia. }
  pose proof (bake_iteration_spec namespaces s e (length namespaces) (S k) x wk) as Hit.
  replace (S k - 1) with k in Hit by lia. rewrite Hcan in Hit. destruct Hit as [h E].
  eexists. split; [|split; [|split]].
  - unfold bake_loop. fold body. rewrite <- (take_drop k namespaces) at 1.
    rewrite (for_enumerate_run_items body _ _ _ _ _ Harr), Hlen, Hd.
    change (1 + k) with (S k). rewrite for_enumerate_cons. unfold body. rewrite E. reflexivity.
  - intros j ns Hj Hlk. unfold status_get. simpl.
    rewrite status_set_all_lookup, bool_decide_eq_true_2.
    + rewrite Forall_forall in Hids. rewrite Hids; [done|].
      by eapply list_elem_of_lookup_2.
    + apply list_elem_of_lookup. exists (j - k).
      rewrite lookup_drop. by replace (k + (j - k)) with j by lia.
  - intros j ns Hj Hlk.
    rewrite (take_split j k) in Harr by lia. rewrite run_items_app in Harr.
    destruct (run_items body 1 (take (S j) namespaces) w) as [wj|] eqn:Hwj; [|done].
    exists wj. split; [done|].
    assert (Hnot : ∀ i, S j ≤ i → namespaces !! i ≠ Some ns).
    { intros i Hi Hlk'. pose proof (NoDup_lookup _ _ _ _ Hnd Hlk Hlk'). lia. }
    assert (Hwk : _STATUS wk !! ns = _STATUS wj !! ns).
    { eapply run_items_frame; [exact Harr|].
      intros Hin. apply list_elem_of_lookup in Hin as [i Hi].
      rewrite lookup_drop in Hi. apply lookup_take_Some in Hi as [Hi _].
      by apply (Hnot (S j + i)); [lia|]. }
    assert (Hwf : status_get
                    (status_set_all (drop k namespaces) St_canceled (_STATUS wk)) ns
                  = status_get (_STATUS wj) ns).
    { unfold status_get. rewrite status_set_all_notin, Hwk; [done|].
      intros Hin. apply list_elem_of_lookup in Hin as [i Hi].
      rewrite lookup_drop in Hi. by apply (Hnot (k + i)); [lia|]. }
    simpl in *. rewrite Hwf. split; [done|].
    rewrite (take_S_r _ _ _ Hlk) in Hwj.
    eapply run_items_last; [exact Hwj|].
    rewrite Forall_forall in Hids. apply Hids. by eapply list_elem_of_lookup_2.
  - reflexivity.
Qed.

(** *** Refresh and seeding *)

Lemma for_collect_pure {A B} (f : A -> M St B) l (w : St) :
  (∀ x, ∃ y, f x w = Ret y w) →
  ∃ ys, for_collect f l w = Ret ys w ∧ Forall2 (fun x y => f x w = Ret y w) l ys.
Proof.
  intros Hf. induction l as [|x l (ys & E & HF)]; simpl.
  - exists []. by split.
  - destruct (Hf x) as [y Ey]. exists (y :: ys).
    rewrite bind_eval, Ey, bind_eval, E. split; [done|]. by constructor.
Qed.

Lemma list_scene_rigs_ret (w : St) :
  ∃ rigs, list_scene_rigs maya w = Ret rigs w
    ∧ ∀ r ns, r ∈ rigs → namespace r = Some ns → truthy ns = true →
              _read_bind_driver maya ns w = Ret (bind_skeleton_driver r) w.
Proof.
  unfold list_scene_rigs. rewrite bind_eval, try_except_eval.
  set (body := fun a : Actor => _) at 1.
  assert (Hactors : ∃ actors,
             match queryE (get_all_actors_in_scene maya) w with
             | Ret a w' => Ret a w'
             | Raise _ w' => ret [] w'
             end = Ret actors w).
  { unfold queryE. destruct (get_all_actors_in_scene maya (host w)); eauto. }
  destruct Hactors as [actors ->].
  destruct (for_collect_pure body actors w) as (rigs & E & HF).
  { intros a. unfold body. rewrite bind_eval.
    destruct (a_namespace a) as [ns|]; [destruct (truthy ns)|].
    - destruct (read_bind_driver_ret ns w) as [v ->]. eauto.
    - eauto.
    - eauto. }
  exists rigs. split; [exact E|].
  intros r ns Hin Hns Ht.
  apply list_elem_of_lookup in Hin as [i Hi].
  destruct (Forall2_lookup_r _ _ _ _ _ HF Hi) as (a & _ & Ha).
  unfold body in Ha. rewrite bind_eval in Ha.
  destruct (a_namespace a) as [ns'|]; [destruct (truthy ns') eqn:Ht'|].
  - destruct (read_bind_driver_ret ns' w) as [v Ev]. rewrite Ev in Ha.
    injection Ha as <-. simpl in *. by injection Hns as <-.
  - injection Ha as <-. simpl in *. injection Hns as <-. congruence.
  - injection Ha as <-. done.
Qed.

Lemma seeding_loop rigs (w : St) :
  for_each
    (fun r => match namespace r with
              | Some ns =>
                  if truthy ns then _status_init_from_bind ns (bind_skeleton_driver r)
                  else ret tt
              | None => ret tt
              end) rigs w
  = Ret tt (set_STATUS (seed_all rigs (_STATUS w)) w).
Proof.
  revert w; induction rigs as [|r rigs IH]; intros w; simpl.
  - unfold ret. by rewrite set_STATUS_same.
  - rewrite bind_eval.
    destruct (namespace r) as [ns|]; [destruct (truthy ns)|].
    + unfold _status_init_from_bind, modify. by rewrite IH.
    + unfold ret at 1. by rewrite IH.
    + unfold ret at 1. by rewrite IH.
Qed.

Lemma refresh_spec (w : St) :
  ∃ rigs, list_scene_rigs maya w = Ret rigs w
    ∧ _refresh_rigs_cache maya w
      = Ret tt (set_STATUS (seed_all rigs (_STATUS w))
                  (set_MARKED_NS (_MARKED_NS w ∩ scene_namespaces rigs)
                     (set_RIGS_CACHE rigs w))).
Proof.
  destruct (list_scene_rigs_ret w) as (rigs & E & _). exists rigs. split; [done|].
  unfold _refresh_rigs_cache. mstep.
  erewrite bind_ret_eq by exact E. cbv beta. repeat mstep.
  by rewrite seeding_loop.
Qed.

Lemma seed_all_keep rigs st ns :
  is_Some (st !! ns) → seed_all rigs st !! ns = st !! ns.
Proof.
  revert st; induction rigs as [|r rigs IH]; intros st Hs; simpl; [done|].
  destruct (namespace r) as [x|]; [destruct (truthy x)|]; try by apply IH.
  unfold status_init_from_bind. destruct (st !! x) eqn:Hx; [by apply IH|].
  assert (x ≠ ns) by (intros ->; rewrite Hx in Hs; by destruct Hs).
  rewrite IH; rewrite lookup_insert_ne; done.
Qed.

Lemma seed_all_new rigs st ns :
  st !! ns = None → ns ∈ scene_namespaces rigs →
  ∃ r, r ∈ rigs ∧ namespace r = Some ns
       ∧ seed_all rigs st !! ns = Some (seed (bind_skeleton_driver r)).
Proof.
  revert st; induction rigs as [|r rigs IH]; intros st Hn Hin.
  { unfold scene_namespaces in Hin. simpl in Hin. set_solver. }
  change (r :: rigs) with ([r] ++ rigs) in Hin.
  rewrite scene_namespaces_app in Hin. simpl.
  assert (Hrest : ∀ st', st' !! ns = None → ns ∈ scene_namespaces rigs →
            ∃ r0, r0 ∈ r :: rigs ∧ namespace r0 = Some ns
                  ∧ seed_all rigs st' !! ns = Some (seed (bind_skeleton_driver r0))).
  { intros st' Hn' Hin'. destruct (IH st' Hn' Hin') as (r0 & ? & ? & ?).
    exists r0. set_solver. }
  assert (Hhead : ns ∈ scene_namespaces [r] → namespace r = Some ns ∧ truthy ns = true).
  { unfold scene_namespaces. simpl. destruct (namespace r) as [x|]; [|set_solver].
    destruct (truthy x) eqn:Hx; simpl; [|set_solver].
    intros Hx'. assert (ns = x) as -> by set_solver. done. }
  destruct (namespace r) as [x|] eqn:Hr; [destruct (truthy x) eqn:Hx|].
  - destruct (decide (x = ns)) as [->|Hne].
    + unfold status_init_from_bind. rewrite Hn.
      exists r. split; [set_solver|]. split; [done|].
      rewrite seed_all_keep; rewrite lookup_insert_eq; done.
    + apply Hrest.
      * unfold status_init_from_bind. destruct (st !! x); [done|].
        by rewrite lookup_insert_ne.
      * apply elem_of_union in Hin as [Hin|Hin]; [|done].
        destruct (Hhead Hin) as [Heq _]. congruence.
  - apply Hrest; [done|].
    apply elem_of_union in Hin as [Hin|Hin]; [|done].
    destruct (Hhead Hin) as [Heq Ht]. congruence.
  - apply Hrest; [done|].
    apply elem_of_union in Hin as [Hin|Hin]; [|done].
    destruct (Hhead Hin) as [Heq _]. congruence.
Qed.

Lemma refresh_seq_keeps events :
  ∀ w : St, ∃ w', refresh_seq maya events w = Ret tt w'
    ∧ ∀ ns, is_Some (_STATUS w !! ns) → _STATUS w' !! ns = _STATUS w !! ns.
Proof.
  induction events as [|ev events IH]; intros w; simpl.
  - by exists w.
  - rewrite bind_command.
    destruct (refresh_spec (set_host (ev (host w)) w)) as (rigs & _ & E).
    erewrite bind_ret_eq by exact E.
    match goal with |- context [refresh_seq maya events ?x] =>
      destruct (IH x) as (w' & -> & Hk) end.
    exists w'. split; [done|]. intros ns Hs. simpl in Hk.
    assert (Hk1 := seed_all_keep rigs (_STATUS w) ns Hs).
    rewrite Hk; rewrite Hk1; done.
Qed.

(** C5: a refresh gives an id without a status the seed of its readiness
    flag as read at that refresh (Baked when the flag reads 1 or true, else
    'not'), leaves every status that exists as it is, and so does every
    later sequence of refreshes, whatever the host did to the flags in
    between. *)
Theorem C5_status_seeded_once (w : St) :
  ∃ w1, _refresh_rigs_cache maya w = Ret tt w1
    ∧ (∀ ns, _STATUS w !! ns = None → ns ∈ inventory w1 →
         ∃ v, _read_bind_driver maya ns w = Ret v w
              ∧ _STATUS w1 !! ns = Some (if eq_one v then St_baked else St_not))
    ∧ (∀ ns, is_Some (_STATUS w !! ns) → _STATUS w1 !! ns = _STATUS w !! ns)
    ∧ (∀ ns, ns ∈ inventory w1 → is_Some (_STATUS w1 !! ns))
    ∧ (∀ events, ∃ w2, refresh_seq maya events w1 = Ret tt w2
         ∧ ∀ ns, is_Some (_STATUS w1 !! ns) → _STATUS w2 !! ns = _STATUS w1 !! ns).
Proof.
  destruct (list_scene_rigs_ret w) as (rigs & Erigs & Hflags).
  destruct (refresh_spec w) as (rigs' & Erigs' & E).
  assert (rigs' = rigs) as -> by congruence.
  eexists. split; [exact E|]. unfold inventory. simpl.
  assert (Hnew : ∀ ns, _STATUS w !! ns = None → ns ∈ scene_namespaces rigs →
            ∃ v, _read_bind_driver maya ns w = Ret v w
                 ∧ seed_all rigs (_STATUS w) !! ns
                   = Some (if eq_one v then St_baked else St_not)).
  { intros ns Hn Hin.
    destruct (seed_all_new rigs (_STATUS w) ns Hn Hin) as (r & Hr & Hns & Hs).
    exists (bind_skeleton_driver r). split; [|exact Hs].
    apply (Hflags r ns Hr Hns).
    unfold scene_namespaces in Hin. apply elem_of_list_to_set in Hin.
    apply list_elem_of_omap in Hin as (r0 & _ & Hr0).
    destruct (namespace r0) as [x|]; [|done].
    destruct (truthy x) eqn:Hx; [|done]. by injection Hr0 as ->. }
  split; [exact Hnew|]. split; [intros ns; apply seed_all_keep|]. split.
  - intros ns Hin. destruct (_STATUS w !! ns) eqn:Hs.
    + rewrite seed_all_keep; rewrite Hs; eauto.
    + destruct (Hnew ns Hs Hin) as (v & _ & ->). eauto.
  - intros events. apply refresh_seq_keeps.
Qed.

(** *** Marking *)

Lemma set_MARKED_NS_same (w : St) : set_MARKED_NS (_MARKED_NS w) w = w.
Proof. apply world_eta. Qed.

Lemma marks_fold (f : string -> St -> St) :
  (∀ x w, ∃ M', f x w = set_MARKED_NS M' w ∧ M' ⊆ {[x]} ∪ _MARKED_NS w) →
  ∀ l (w : St), ∃ M', foldl (fun w x => f x w) w l = set_MARKED_NS M' w
                      ∧ M' ⊆ list_to_set l ∪ _MARKED_NS w.
Proof.
  intros Hf. induction l as [|x l IH]; intros w; simpl.
  - exists (_MARKED_NS w). rewrite set_MARKED_NS_same. split; [done|set_solver].
  - destruct (Hf x w) as (M1 & -> & H1).
    destruct (IH (set_MARKED_NS M1 w)) as (M2 & -> & H2).
    exists M2. split; [done|]. simpl in H2. set_solver.
Qed.

Lemma marked_add_step x (w : St) :
  ∃ M', marked_add x w = set_MARKED_NS M' w ∧ M' ⊆ {[x]} ∪ _MARKED_NS w.
Proof. eexists. split; [reflexivity|]. set_solver. Qed.

Lemma marked_discard_step x (w : St) :
  ∃ M', marked_discard x w = set_MARKED_NS M' w ∧ M' ⊆ {[x]} ∪ _MARKED_NS w.
Proof. eexists. split; [reflexivity|]. set_solver. Qed.

Lemma marked_toggle_step x (w : St) :
  ∃ M', marked_toggle x w = set_MARKED_NS M' w ∧ M' ⊆ {[x]} ∪ _MARKED_NS w.
Proof.
  unfold marked_toggle. destruct (decide _).
  - apply marked_discard_step.
  - apply marked_add_step.
Qed.

Lemma fold_marked_add l (w : St) :
  foldl (fun w x => marked_add x w) w l
  = set_MARKED_NS (_MARKED_NS w ∪ list_to_set l) w.
Proof.
  revert w; induction l as [|x l IH]; intros w; simpl.
  - rewrite union_empty_r_L. by rewrite set_MARKED_NS_same.
  - rewrite IH. unfold marked_add, set_MARKED_NS. simpl. f_equal. set_solver.
Qed.

Lemma fold_marked_discard l (w : St) :
  foldl (fun w x => marked_discard x w) w l
  = set_MARKED_NS (_MARKED_NS w ∖ list_to_set l) w.
Proof.
  revert w; induction l as [|x l IH]; intros w; simpl.
  - rewrite difference_empty_L. by rewrite set_MARKED_NS_same.
  - rewrite IH. unfold marked_discard, set_MARKED_NS. simpl. f_equal. set_solver.
Qed.


(** The common shape of [_mark_selected], [_unmark_selected] and
    [_toggle_selected]. *)
Lemma selected_op_spec (f : string -> St -> St) (w : St) :
  (∀ x w, ∃ M', f x w = set_MARKED_NS M' w ∧ M' ⊆ {[x]} ∪ _MARKED_NS w) →
  let S := labels_to_namespaces (_LABEL2NS w) (tsl_selected_items maya (host w)) in
  ∃ w', bind (_selected_namespaces maya)
          (fun ns_list =>
             match ns_list with
             | [] => ret tt
             | _ => bind (for_each (fun ns => modify (f ns)) ns_list)
                         (fun _ => _populate_list maya)
             end) w = Ret tt w'
    ∧ _MARKED_NS w' = _MARKED_NS (foldl (fun w x => f x w) w S)
    ∧ _MARKED_NS w' ⊆ list_to_set S ∪ _MARKED_NS w
    ∧ _RIGS_CACHE w' = _RIGS_CACHE w ∧ _STATUS w' = _STATUS w
    ∧ (labels_ok w → labels_ok w').
Proof.
  intros Hf S.
  assert (Es : _selected_namespaces maya w = Ret S w) by reflexivity.
  erewrite bind_ret_eq by exact Es. cbv beta.
  destruct (marks_fold f Hf S w) as (M' & EM & HM).
  destruct S as [|x S'] eqn:HS.
  - exists w. simpl. repeat split; try done. set_solver.
  - rewrite <- HS in *. erewrite bind_ret_eq by apply for_each_modify. cbv beta.
    rewrite EM.
    destruct (populate_list_ret (set_MARKED_NS M' w)) as (w' & -> & Hc & Hl).
    exists w'. unfold core_same in Hc. simpl in Hc.
    destruct Hc as (? & -> & ? & _). repeat split; try done.
Qed.

Lemma mark_selected_spec (w : St) :
  let S := labels_to_namespaces (_LABEL2NS w) (tsl_selected_items maya (host w)) in
  ∃ w', _mark_selected maya w = Ret tt w'
    ∧ _MARKED_NS w' = _MARKED_NS w ∪ list_to_set S
    ∧ _RIGS_CACHE w' = _RIGS_CACHE w ∧ _STATUS w' = _STATUS w
    ∧ (labels_ok w → labels_ok w').
Proof.
  intros S. destruct (selected_op_spec marked_add w marked_add_step)
    as (w' & E & HM & _ & ? & ? & ?).
  exists w'. split; [exact E|]. rewrite HM, fold_marked_add. done.
Qed.

Lemma unmark_selected_spec (w : St) :
  let S := labels_to_namespaces (_LABEL2NS w) (tsl_selected_items maya (host w)) in
  ∃ w', _unmark_selected maya w = Ret tt w'
    ∧ _MARKED_NS w' = _MARKED_NS w ∖ list_to_set S
    ∧ _RIGS_CACHE w' = _RIGS_CACHE w ∧ _STATUS w' = _STATUS w
    ∧ (labels_ok w → labels_ok w').
Proof.
  intros S. destruct (selected_op_spec marked_discard w marked_discard_step)
    as (w' & E & HM & _ & ? & ? & ?).
  exists w'. split; [exact E|]. rewrite HM, fold_marked_discard. done.
Qed.

(** C6 (as amended): marking the selection and then unmarking the same
    selection leaves the marked set without the selected ids; it is the
    prior marked set when none of the selected ids was marked before. *)
Theorem C6_mark_then_unmark (w w1 : St) (S S' : list string) :
  _selected_namespaces maya w = Ret S w →
  _mark_selected maya w = Ret tt w1 →
  _selected_namespaces maya w1 = Ret S' w1 →
  list_to_set S' =@{gset string} list_to_set S →
  ∃ w2, _unmark_selected maya w1 = Ret tt w2
    ∧ _MARKED_NS w2 = _MARKED_NS w ∖ list_to_set S
    ∧ (list_to_set S ## _MARKED_NS w → _MARKED_NS w2 = _MARKED_NS w).
Proof.
  intros HS Hm HS' Heq.
  destruct (mark_selected_spec w) as (w1' & E1 & HM1 & _).
  rewrite Hm in E1. injection E1 as <-.
  destruct (unmark_selected_spec w1) as (w2 & E2 & HM2 & _).
  injection HS as <-. injection HS' as <-.
  exists w2. split; [exact E2|].
  rewrite HM2, HM1, Heq. split; set_solver.
Qed.

(** *** Relations that every step outside the marking code respects *)

Section Stable.

Variable R : St -> St -> Prop.
Hypothesis R_refl : ∀ w, R w w.
Hypothesis R_trans : ∀ a b c, R a b → R b c → R a c.
Hypothesis R_host : ∀ h w, R w (set_host h w).
Hypothesis R_warn : ∀ x w, R w (log_warning x w).
Hypothesis R_status : ∀ m w, R w (set_STATUS m w).
Hypothesis R_backup : ∀ b w, R w (set_muted_expr_backup b w).
Hypothesis R_call : ∀ c w, R w (log_bake_call c w).
Hypothesis R_populate : always R (_populate_list maya).

Lemma always_ret {A} (a : A) : always R (ret a).
Proof. intros w. apply R_refl. Qed.

Lemma always_raise {A} e : always R (@raise St A e).
Proof. intros w. apply R_refl. Qed.

Lemma always_bind {A B} (m : M St A) (k : A -> M St B) :
  always R m → (∀ a, always R (k a)) → always R (bind m k).
Proof.
  intros Hm Hk w. specialize (Hm w). unfold bind.
  destruct (m w) as [a w1|e w1]; simpl in *; [|done].
  eapply R_trans; [exact Hm|apply Hk].
Qed.

Lemma always_try_except {A} (body : M St A) handler :
  always R body → (∀ e, always R (handler e)) → always R (try_except body handler).
Proof.
  intros Hm Hk w. specialize (Hm w). unfold try_except.
  destruct (body w) as [a w1|e w1]; simpl in *; [done|].
  eapply R_trans; [exact Hm|apply Hk].
Qed.

Lemma always_try_finally {A} (body : M St A) fin :
  always R body → always R fin → always R (try_finally body fin).
Proof.
  intros Hm Hk w. specialize (Hm w). unfold try_finally.
  destruct (body w) as [a w1|e w1]; simpl in *;
    specialize (Hk w1); destruct (fin w1); simpl in *; eauto.
Qed.

Lemma always_query {A} (f : H -> A) : always R (query f).
Proof. intros w. apply R_refl. Qed.

Lemma always_queryE {A} (f : H -> exn + A) : always R (queryE f).
Proof. intros w. unfold queryE. destruct (f (host w)); apply R_refl. Qed.

Lemma always_gets {A} (f : St -> A) : always R (gets f).
Proof. intros w. apply R_refl. Qed.

Lemma always_liftE {A} (r : exn + A) : always R (liftE r).
Proof. destruct r; [apply always_raise|apply always_ret]. Qed.

Lemma always_command (f : H -> H) : always R (command f).
Proof. intros w. apply R_host. Qed.

Lemma always_commandE {A} (f : H -> Res H A) : always R (commandE f).
Proof. intros w. unfold commandE. destruct (f (host w)); apply R_host. Qed.

Lemma always_modify (f : St -> St) : (∀ w, R w (f w)) → always R (modify f).
Proof. intros Hf w. apply Hf. Qed.

Lemma always_warning x : always R (warning x).
Proof. apply always_modify. intros w. apply R_warn. Qed.

Lemma always_status_set ns s : always R (_status_set ns s).
Proof. apply always_modify. intros w. apply R_status. Qed.

Lemma always_retarget_call ns s e : always R (retarget_call maya ns s e).
Proof.
  intros w. unfold retarget_call.
  destruct (retarget_batch maya ns s e (host w)); simpl;
    (eapply R_trans; [apply R_host|apply R_call]).
Qed.

Lemma always_for_each {A} (f : A -> M St unit) l :
  (∀ x, always R (f x)) → always R (for_each f l).
Proof.
  intros Hf. induction l as [|x l IH]; simpl.
  - apply always_ret.
  - apply always_bind; auto.
Qed.

Lemma always_for_collect {A B} (f : A -> M St B) l :
  (∀ x, always R (f x)) → always R (for_collect f l).
Proof.
  intros Hf. induction l as [|x l IH]; simpl.
  - apply always_ret.
  - apply always_bind; [auto|]. intros y.
    apply always_bind; [auto|]. intros ys. apply always_ret.
Qed.

Lemma always_for_filter {A} (p : A -> M St bool) l :
  (∀ x, always R (p x)) → always R (for_filter p l).
Proof.
  intros Hf. induction l as [|x l IH]; simpl.
  - apply always_ret.
  - apply always_bind; [auto|]. intros y.
    apply always_bind; [auto|]. intros ys. apply always_ret.
Qed.

Lemma always_for_enumerate (body : nat -> string -> M St ctl) l :
  (∀ i x, always R (body i x)) → ∀ i, always R (for_enumerate body i l).
Proof.
  intros Hf. induction l as [|x l IH]; intros i; simpl.
  - apply always_ret.
  - apply always_bind; [auto|]. intros []; [apply IH|apply always_ret].
Qed.

Ltac always_with tac :=
  repeat first
    [ tac
    | apply always_ret | apply always_raise | apply always_query
    | apply always_queryE | apply always_gets | apply always_command
    | apply always_commandE | apply always_warning | apply always_liftE
    | apply always_status_set | apply always_retarget_call
    | apply always_bind; [|intros ?]
    | apply always_try_except; [|intros ?]
    | apply always_try_finally
    | apply always_for_each; intros ?
    | apply always_for_collect; intros ?
    | apply always_for_filter; intros ?
    | apply always_for_enumerate; intros ? ?
    | apply always_modify; intros ?;
      first [apply R_status | apply R_backup | apply R_call | apply R_warn | apply R_host]
    | match goal with
      | |- always _ (if ?b then _ else _) => destruct b
      | |- always _ (match ?x with _ => _ end) => destruct x
      end ].

Lemma always_read_bind_driver ns : always R (_read_bind_driver maya ns).
Proof. unfold _read_bind_driver. always_with fail. Qed.

Lemma always_pump_progress n : always R (pump_progress maya n).
Proof. unfold pump_progress. always_with fail. Qed.

Lemma always_update_counts : always R (_update_counts maya).
Proof. unfold _update_counts. always_with fail. Qed.

Lemma always_driver namespaces s e :
  always R (bake_selected_actors_in_range_with_progress maya namespaces s e).
Proof.
  unfold bake_selected_actors_in_range_with_progress, bake_loop, bake_iteration.
  always_with ltac:(first [apply always_read_bind_driver | apply always_pump_progress
                          | apply R_populate]).
Qed.

Lemma always_mute : always R (mute_broken_expressions maya).
Proof.
  unfold mute_broken_expressions, _list_broken_expressions, backup_setitem.
  always_with fail.
Qed.

Lemma always_restore : always R (restore_muted_expressions maya).
Proof. unfold restore_muted_expressions. always_with fail. Qed.

Lemma always_read_cam_attr_int cam attr : always R (_read_cam_attr_int maya cam attr).
Proof. unfold _read_cam_attr_int, tier. always_with fail. Qed.

Lemma always_compute_range method pre post fb :
  always R (compute_range maya method pre post fb).
Proof.
  unfold compute_range, get_start_frame_from_layout_cam,
    get_end_frame_from_layout_cam, timeline_range.
  always_with ltac:(apply always_read_cam_attr_int).
Qed.

Lemma always_run_bake_with_range l mute_expr restore_expr wipe_te skip_baked r :
  always R (run_bake_with_range maya l mute_expr restore_expr wipe_te skip_baked r).
Proof.
  unfold run_bake_with_range, _validate_range, delete_time_editor_content.
  always_with ltac:(first [apply always_read_bind_driver | apply always_driver
                          | apply always_mute | apply always_restore
                          | apply always_update_counts | apply R_populate]).
Qed.

Lemma always_on_run_bake : always R (_on_run_bake maya).
Proof.
  unfold _on_run_bake.
  always_with ltac:(first [apply always_compute_range
                          | apply always_run_bake_with_range]).
Qed.

End Stable.

(** *** The marked set stays inside the inventory *)


Lemma on_run_bake_keeps_registry : always keeps_registry (_on_run_bake maya).
Proof.
  apply always_on_run_bake; unfold keeps_registry.
  - done.
  - intros a b c (-> & -> & H1) (-> & -> & H2). auto.
  - done.
  - done.
  - done.
  - done.
  - done.
  - intros w. destruct (populate_list_ret w) as (w' & -> & Hc & Hl).
    unfold core_same in Hc. simpl. naive_solver.
Qed.







(** *** Restoring muted expressions *)

Lemma restore_loop items :
  ∀ w : St, ∃ w',
    for_each
      (fun '(ex, txt) =>
         bind (query (objExists maya ex)) (fun there =>
           if there : bool then
             try_except (commandE (expression_edit maya ex txt))
                        (fun _ => warning (WCouldNotRestore ex))
           else ret tt))
      items w = Ret tt w'
    ∧ _muted_expr_backup w' = _muted_expr_backup w
    ∧ _STATUS w' = _STATUS w ∧ _MARKED_NS w' = _MARKED_NS w
    ∧ bake_calls w' = bake_calls w.
Proof.
  induction items as [|[ex txt] items IH]; intros w; simpl.
  - by exists w.
  - rewrite bind_eval, bind_query.
    destruct (objExists maya ex (host w)).
    + rewrite try_except_eval. unfold commandE at 1.
      destruct (expression_edit maya ex txt (host w)) as [[] h|e h]; cbv beta iota.
      * destruct (IH (set_host h w)) as (w' & -> & ? & ? & ? & ?). by exists w'.
      * destruct (IH (log_warning (WCouldNotRestore ex) (set_host h w)))
          as (w' & E & ? & ? & ? & ?).
        unfold warning at 1, modify at 1. cbv beta iota. rewrite E. by exists w'.
    + destruct (IH w) as (w' & E & ? & ? & ? & ?).
      unfold ret at 1. cbv beta iota. rewrite E. by exists w'.
Qed.

(** [restore_muted_expressions] before any [mute_broken_expressions]: the
    global is not bound. *)
Lemma restore_unbound (w : St) :
  _muted_expr_backup w = None →
  restore_muted_expressions maya w = Raise (NameError "_muted_expr_backup") w.
Proof. intros Hb. unfold restore_muted_expressions. rewrite bind_gets, Hb. done. Qed.


(** *** Range resolution from the cameras *)

Lemma read_cam_attr_int_pure cam attr :
  always (fun w w' : St => w' = w) (_read_cam_attr_int maya cam attr).
Proof. apply always_read_cam_attr_int; [done|]. intros a b c -> ->. done. Qed.

Lemma camera_reads_fail pre post (w : St) :
  head_tail_unreadable maya w →
  let normalize l := str_replace maya "  (HT)" "" l in
  ∃ e, bind (get_start_frame_from_layout_cam maya
               (normalize (optionMenu_value maya "om_first" (host w))) pre)
         (fun start_frame =>
            bind (get_end_frame_from_layout_cam maya
                    (normalize (optionMenu_value maya "om_last" (host w))) post)
              (fun end_frame => ret (Some (start_frame, end_frame)))) w
       = Raise e w.
Proof.
  intros Hun normalize.
  set (c1 := normalize (optionMenu_value maya "om_first" (host w))).
  set (c2 := normalize (optionMenu_value maya "om_last" (host w))).
  pose proof (read_cam_attr_int_pure c1 "headIn" w) as P1.
  pose proof (read_cam_attr_int_pure c2 "tailOut" w) as P2.
  unfold get_start_frame_from_layout_cam, get_end_frame_from_layout_cam.
  rewrite !bind_eval.
  destruct (_read_cam_attr_int maya c1 "headIn" w) as [z1 w1|e1 w1] eqn:E1;
    simpl in P1; subst w1; [|eauto].
  cbv beta iota. unfold ret at 1. cbv beta iota. rewrite !bind_eval.
  destruct (_read_cam_attr_int maya c2 "tailOut" w) as [z2 w2|e2 w2] eqn:E2;
    simpl in P2; subst w2; [|eauto].
  exfalso. unfold head_tail_unreadable in Hun. unfold c1, c2, normalize in *.
  destruct Hun as [(e & w' & Hr)|(e & w' & Hr)]; congruence.
Qed.

Lemma compute_range_cameras_fail pre post fb (w : St) :
  head_tail_unreadable maya w →
  compute_range maya 1 pre post fb w
  = if fb
    then Ret (Some ((playbackOptions_min maya (host w) - pre)%Z,
                    (playbackOptions_max maya (host w) + post)%Z))
             (log_warning (WTimelineFallback
                             (playbackOptions_min maya (host w) - pre)
                             (playbackOptions_max maya (host w) + post)) w)
    else Ret None (log_warning WFailedReadHeadTail w).
Proof.
  intros Hun. destruct (camera_reads_fail pre post w Hun) as [e E].
  unfold compute_range. change (1 =? 1)%Z with true. cbv iota.
  rewrite try_except_eval, !bind_query, try_except_eval, E.
  destruct fb; reflexivity.
Qed.

Lemma compute_range_timeline pre post fb (w : St) :
  compute_range maya 2 pre post fb w
  = Ret (Some ((playbackOptions_min maya (host w) - pre)%Z,
               (playbackOptions_max maya (host w) + post)%Z)) w.
Proof. reflexivity. Qed.

Lemma on_run_bake_goes_on (w : St) :
  run_goes_on maya w →
  _on_run_bake maya w
  = bind (compute_range maya (radioButtonGrp_select maya (host w))
            (pre_pad maya w) (post_pad maya w)
            (checkBox_value maya "cb_fallback" (host w)))
      (fun range =>
         match range with
         | None => ret PyNone
         | Some r =>
             run_bake_with_range maya (sorted (elements (_MARKED_NS w)))
               (checkBox_value maya "cb_mute" (host w))
               (checkBox_value maya "cb_restore" (host w))
               (wipe_confirmed maya w)
               (checkBox_value maya "cb_skip_baked" (host w)) r
         end) w.
Proof.
  intros Hgo. unfold _on_run_bake, pre_pad, post_pad, wipe_confirmed.
  rewrite bind_query.
  destruct (checkBox_value maya "cb_prepost_enable" (host w)); cbv iota;
    repeat mstep.
  all: assert (Hyes : match sorted (elements (_MARKED_NS w)) with
                      | [] => bind (query (confirmDialog maya "Bake All Rigs?"))
                                (fun res => if String.eqb res "Yes, bake all"
                                            then ret true
                                            else bind (warning WBakeCanceledNoMarks)
                                                   (fun _ => ret false))
                      | _ => ret true
                      end w = Ret true w)
    by (destruct Hgo as [Hne|Hd];
        [ destruct (sorted (elements (_MARKED_NS w))); done
        | destruct (sorted (elements (_MARKED_NS w))); [|done];
          rewrite bind_query, Hd; reflexivity ]).
  all: erewrite bind_ret_eq by exact Hyes; cbv beta iota.
  all: destruct (checkBox_value maya "cb_timeeditor" (host w)); reflexivity.
Qed.

(** C8: when [_on_run_bake] gets as far as the range, the range comes
    from the cameras and the head or the tail attribute cannot be read,
    then with the fallback option the range is the one of the Timeline
    strategy, a warning is logged and the run goes on with that range;
    without the option no range is produced and [_on_run_bake] returns
    with a warning and nothing else done: no call to the retarget service,
    no status changed, the scene untouched. *)
Theorem C8_camera_range_fallback (w : St) :
  run_goes_on maya w →
  radioButtonGrp_select maya (host w) = 1%Z →
  head_tail_unreadable maya w →
  let pre := pre_pad maya w in
  let post := post_pad maya w in
  let warned := log_warning (WTimelineFallback (fst (timeline_padded maya w))
                                               (snd (timeline_padded maya w))) w in
  if checkBox_value maya "cb_fallback" (host w) then
    compute_range maya 1 pre post true w = Ret (Some (timeline_padded maya w)) warned
    ∧ compute_range maya 2 pre post true w = Ret (Some (timeline_padded maya w)) w
    ∧ _on_run_bake maya w
      = run_bake_with_range maya (sorted (elements (_MARKED_NS w)))
          (checkBox_value maya "cb_mute" (host w))
          (checkBox_value maya "cb_restore" (host w))
          (wipe_confirmed maya w)
          (checkBox_value maya "cb_skip_baked" (host w))
          (timeline_padded maya w) warned
  else
    compute_range maya 1 pre post false w = Ret None (log_warning WFailedReadHeadTail w)
    ∧ _on_run_bake maya w = Ret PyNone (log_warning WFailedReadHeadTail w).
Proof.
  intros Hgo Hmethod Hun pre post warned.
  pose proof (compute_range_cameras_fail pre post
                (checkBox_value maya "cb_fallback" (host w)) w Hun) as Hr.
  pose proof (on_run_bake_goes_on w Hgo) as Hrun. rewrite Hmethod in Hrun.
  subst pre post warned.
  destruct (checkBox_value maya "cb_fallback" (host w)).
  - split; [exact Hr|]. split; [reflexivity|].
    rewrite Hrun. erewrite bind_ret_eq by exact Hr. reflexivity.
  - split; [exact Hr|].
    rewrite Hrun. erewrite bind_ret_eq by exact Hr. reflexivity.
Qed.

End Properties.

(** ** The module on concrete scenes *)

(** Closed decidable facts are settled by evaluation. *)
Ltac by_compute := apply (bool_decide_unpack _); vm_compute; exact I.

(** Scenario: statuses seeded from the flags, then B baked on 100..200. *)
Lemma C1_witness :
  ["B"] ≠ [] ∧ Forall (fun ns => truthy ns = true) ["B"]
  ∧ ∃ w', bake_selected_actors_in_range_with_progress scene_maya ["B"] 100 200 world_AB
          = Ret PyNone w'
      ∧ (∀ ns, ns ∈ ["B"] → is_terminal (status_get (_STATUS w') ns) = true)
      ∧ (∀ ns, ns ∉ ["B"] → _STATUS w' !! ns = _STATUS world_AB !! ns).
Proof.
  split; [done|]. split; [by repeat constructor|].
  apply (C1_batch_leaves_terminal_statuses scene_maya ["B"] 100 200 world_AB);
    [done|by repeat constructor].
Defined.

Lemma scenario_bake_B :
  _STATUS (state_after (bake_selected_actors_in_range_with_progress
                          scene_maya ["B"] 100 200 world_AB))
  = {["A" := St_baked; "B" := St_baked]}.
Proof. by_compute. Qed.

(** The driver hands back [None], not a status mapping. *)
Lemma C1_returns_no_mapping :
  ¬ ∃ d w', bake_selected_actors_in_range_with_progress scene_maya ["B"] 100 200 world_AB
            = Ret (PyDict d) w'.
Proof.
  intros (d & w' & E).
  destruct (driver_returns scene_maya ["B"] 100 200 world_AB) as [wf Ef].
  rewrite Ef in E. clear Ef. discriminate E.
Qed.

(** On the empty list too the driver hands back [None], not an empty
    mapping. *)
Lemma C10_returns_no_mapping :
  ¬ ∃ d w', bake_selected_actors_in_range_with_progress scene_maya [] 100 200 world_AB
            = Ret (PyDict d) w'.
Proof.
  intros (d & w' & E).
  destruct (driver_returns scene_maya [] 100 200 world_AB) as [wf Ef].
  rewrite Ef in E. clear Ef. discriminate E.
Qed.

(** C2: with "Skip rigs ... when baking" unchecked, a marked rig whose
    flag reads 1 is still set to Skipped by the driver, and the retarget
    service is never called. *)
Theorem C2_unchecked_skip_still_skips :
  checkBox_value scene_maya "cb_skip_baked" (host world_A_force) = false
  ∧ elements (_MARKED_NS world_A_force) = ["A"]
  ∧ _read_bind_driver scene_maya "A" world_A_force = Ret (PyInt 1) world_A_force
  ∧ ∃ w', _on_run_bake scene_maya world_A_force = Ret PyNone w'
      ∧ status_get (_STATUS w') "A" = St_skipped
      ∧ bake_calls w' = [].
Proof.
  split; [by_compute|]. split; [by_compute|]. split; [by_compute|].
  exists (state_after (_on_run_bake scene_maya world_A_force)).
  split; [by_compute|]. split; by_compute.
Qed.

(** Scenario: five items, x1 fails, the cancellation is seen before x3. *)
Lemma C3_witness :
  NoDup ids_x ∧ Forall (fun ns => truthy ns = true) ids_x
  ∧ 3 < length ids_x
  ∧ arrives_at scene_maya ids_x 1 120 3 world_x = Some world_x_at3
  ∧ cancel_observed scene_maya 3 world_x_at3 = true
  ∧ ∃ wf, bake_loop scene_maya ids_x 1 120 world_x = Ret tt wf
      ∧ (∀ j ns, 3 ≤ j → ids_x !! j = Some ns →
                 status_get (_STATUS wf) ns = St_canceled)
      ∧ (∀ j ns, j < 3 → ids_x !! j = Some ns →
           ∃ wj, arrives_at scene_maya ids_x 1 120 (S j) world_x = Some wj
             ∧ status_get (_STATUS wf) ns = status_get (_STATUS wj) ns
             ∧ status_get (_STATUS wf) ns ∈ [St_baked; St_skipped; St_failed])
      ∧ bake_calls wf = bake_calls world_x_at3.
Proof.
  assert (Hnd : NoDup ids_x) by by_compute.
  assert (Hids : Forall (fun ns => truthy ns = true) ids_x) by by_compute.
  assert (Hk : 3 < length ids_x) by by_compute.
  assert (Harr : arrives_at scene_maya ids_x 1 120 3 world_x = Some world_x_at3)
    by by_compute.
  assert (Hc : cancel_observed scene_maya 3 world_x_at3 = true) by by_compute.
  split; [exact Hnd|]. split; [exact Hids|]. split; [exact Hk|].
  split; [exact Harr|]. split; [exact Hc|].
  exact (C3_cancellation_at_index scene_maya ids_x 1 120 3 world_x world_x_at3
           Hnd Hids Hk Harr Hc).
Defined.

Lemma scenario_cancel_before_x3 :
  _STATUS (state_after (bake_loop scene_maya ids_x 1 120 world_x))
  = {["x0" := St_baked; "x1" := St_failed; "x2" := St_baked;
      "x3" := St_canceled; "x4" := St_canceled]}.
Proof. by_compute. Qed.

(** The same id twice: the first item is Baked by its own iteration, the
    cancellation is seen before the second item, and the id ends Canceled. *)
Lemma C3_repeated_id_loses_status :
  arrives_at scene_maya ["a"; "a"] 1 120 1 world_a = Some world_a_at1
  ∧ cancel_observed scene_maya 1 world_a_at1 = true
  ∧ status_get (_STATUS world_a_at1) "a" = St_baked
  ∧ ∃ wf, bake_loop scene_maya ["a"; "a"] 1 120 world_a = Ret tt wf
      ∧ status_get (_STATUS wf) "a" = St_canceled.
Proof.
  split; [by_compute|]. split; [by_compute|]. split; [by_compute|].
  exists (state_after (bake_loop scene_maya ["a"; "a"] 1 120 world_a)).
  split; by_compute.
Qed.


(** Nothing marked, row B selected: mark, then unmark with the selection
    kept, gives back the empty marked set. *)
Lemma C6_witness :
  _selected_namespaces scene_maya (select_rows [2] world_AB)
  = Ret ["B"] (select_rows [2] world_AB)
  ∧ _mark_selected scene_maya (select_rows [2] world_AB) = Ret tt world_B_marked
  ∧ _selected_namespaces scene_maya world_B_marked = Ret ["B"] world_B_marked
  ∧ list_to_set ["B"] =@{gset string} list_to_set ["B"]
  ∧ ∃ w2, _unmark_selected scene_maya world_B_marked = Ret tt w2
      ∧ _MARKED_NS w2 = _MARKED_NS (select_rows [2] world_AB) ∖ list_to_set ["B"]
      ∧ (list_to_set ["B"] ## _MARKED_NS (select_rows [2] world_AB) →
         _MARKED_NS w2 = _MARKED_NS (select_rows [2] world_AB)).
Proof.
  assert (H1 : _selected_namespaces scene_maya (select_rows [2] world_AB)
               = Ret ["B"] (select_rows [2] world_AB)) by by_compute.
  assert (H2 : _mark_selected scene_maya (select_rows [2] world_AB)
               = Ret tt world_B_marked) by by_compute.
  assert (H3 : _selected_namespaces scene_maya world_B_marked
               = Ret ["B"] world_B_marked) by by_compute.
  split; [exact H1|]. split; [exact H2|]. split; [exact H3|]. split; [reflexivity|].
  exact (C6_mark_then_unmark scene_maya (select_rows [2] world_AB) world_B_marked
           ["B"] ["B"] H1 H2 H3 eq_refl).
Defined.

(** B marked and its row selected: mark, then unmark with the selection
    kept, loses the mark that B had before. *)
Lemma C6_marked_before_is_lost :
  _MARKED_NS world_B_marked = {["B"]}
  ∧ _selected_namespaces scene_maya world_B_marked = Ret ["B"] world_B_marked
  ∧ ∃ w1 w2,
      _mark_selected scene_maya world_B_marked = Ret tt w1
      ∧ _selected_namespaces scene_maya w1 = Ret ["B"] w1
      ∧ _unmark_selected scene_maya w1 = Ret tt w2
      ∧ _MARKED_NS w2 = ∅
      ∧ _MARKED_NS w2 ≠ _MARKED_NS world_B_marked.
Proof.
  split; [by_compute|]. split; [by_compute|].
  exists (state_after (_mark_selected scene_maya world_B_marked)).
  exists (state_after (_unmark_selected scene_maya
                         (state_after (_mark_selected scene_maya world_B_marked)))).
  split; [by_compute|]. split; [by_compute|]. split; [by_compute|].
  split; by_compute.
Qed.


(** Range source "From Cameras", nothing readable, fallback allowed, B
    marked: the run goes on with the timeline range. *)
Lemma C8_witness :
  let w := world_no_cameras_fallback in
  run_goes_on scene_maya w
  ∧ radioButtonGrp_select scene_maya (host w) = 1%Z
  ∧ head_tail_unreadable scene_maya w
  ∧ let pre := pre_pad scene_maya w in
    let post := post_pad scene_maya w in
    let warned := log_warning (WTimelineFallback (fst (timeline_padded scene_maya w))
                                                 (snd (timeline_padded scene_maya w))) w in
    if checkBox_value scene_maya "cb_fallback" (host w) then
      compute_range scene_maya 1 pre post true w
      = Ret (Some (timeline_padded scene_maya w)) warned
      ∧ compute_range scene_maya 2 pre post true w
        = Ret (Some (timeline_padded scene_maya w)) w
      ∧ _on_run_bake scene_maya w
        = run_bake_with_range scene_maya (sorted (elements (_MARKED_NS w)))
            (checkBox_value scene_maya "cb_mute" (host w))
            (checkBox_value scene_maya "cb_restore" (host w))
            (wipe_confirmed scene_maya w)
            (checkBox_value scene_maya "cb_skip_baked" (host w))
            (timeline_padded scene_maya w) warned
    else
      compute_range scene_maya 1 pre post false w
      = Ret None (log_warning WFailedReadHeadTail w)
      ∧ _on_run_bake scene_maya w = Ret PyNone (log_warning WFailedReadHeadTail w).
Proof.
  intros w.
  assert (Hg : run_goes_on scene_maya w) by (left; by_compute).
  assert (Hm : radioButtonGrp_select scene_maya (host w) = 1%Z) by by_compute.
  assert (Hu : head_tail_unreadable scene_maya w).
  { left. exists (RuntimeError "Missing 'headIn' on "), w. by_compute. }
  split; [exact Hg|]. split; [exact Hm|]. split; [exact Hu|].
  exact (C8_camera_range_fallback scene_maya w Hg Hm Hu).
Defined.

(** Scenario: with the fallback the rig B is baked on the timeline range
    after a warning. *)
Lemma scenario_fallback_run :
  checkBox_value scene_maya "cb_fallback" (host world_no_cameras_fallback) = true
  ∧ ∃ w', _on_run_bake scene_maya world_no_cameras_fallback = Ret PyNone w'
      ∧ warnings w' = [WTimelineFallback 1 120]
      ∧ bake_calls w' = [("B", 1%Z, 120%Z, true)]
      ∧ status_get (_STATUS w') "B" = St_baked.
Proof.
  split; [by_compute|].
  exists (state_after (_on_run_bake scene_maya world_no_cameras_fallback)).
  split; [by_compute|]. split; [by_compute|]. split; by_compute.
Qed.

(** Scenario: without the fallback: a warning, no range, no bake. *)
Lemma scenario_no_fallback :
  checkBox_value scene_maya "cb_fallback" (host world_no_cameras) = false
  ∧ _on_run_bake scene_maya world_no_cameras
    = Ret PyNone (log_warning WFailedReadHeadTail world_no_cameras).
Proof. split; by_compute. Qed.


(** Scenario: mute blanks both expressions, restore gives them back and
    empties the backup. *)
Lemma scenario_mute_restore :
  sc_expressions (host world_muted) = [("e1", EmptyString); ("e2", EmptyString)]
  ∧ ∃ w', restore_muted_expressions scene_maya world_muted = Ret tt w'
      ∧ sc_expressions (host w') = [("e1", "ball.tx = 1"); ("e2", "ball.ty = 2")]
      ∧ _muted_expr_backup w' = Some [].
Proof.
  split; [by_compute|].
  exists (state_after (restore_muted_expressions scene_maya world_muted)).
  split; [by_compute|]. split; by_compute.
Qed.


(** Before any mute the name [_muted_expr_backup] is not bound, and restore
    raises. *)
Lemma restore_before_any_mute :
  restore_muted_expressions scene_maya world_AB
  = Raise (NameError "_muted_expr_backup") world_AB.
Proof. by_compute. Qed.

(** ** Further properties of the module *)

Section Coverage.

Context {H : Type} (maya : Maya H).

Local Abbreviation St := (World H).

Ltac pstep :=
  first [ rewrite bind_ret | rewrite bind_query | rewrite bind_gets
        | rewrite bind_modify | rewrite bind_command | rewrite bind_warning ];
  cbv beta.

(** *** Reading the cameras *)

Lemma tier_ret (body : M St (option Z)) (w : St) :
  always (fun w w' : St => w' = w) body →
  ∃ r, tier body w = Ret r w.
Proof.
  intros Hb. specialize (Hb w). unfold tier. rewrite try_except_eval.
  destruct (body w) as [r w'|e w']; simpl in Hb; subst w'; eauto.
Qed.

Lemma same_refl (w : St) : (fun w w' : St => w' = w) w w.
Proof. reflexivity. Qed.

Lemma same_trans (a b c : St) :
  (fun w w' : St => w' = w) a b → (fun w w' : St => w' = w) b c →
  (fun w w' : St => w' = w) a c.
Proof. cbv beta. congruence. Qed.

Ltac pure_steps :=
  repeat first
    [ apply (always_bind _ same_trans)
    | apply (always_query _ same_refl)
    | apply (always_queryE _ same_refl)
    | apply (always_gets _ same_refl)
    | apply (always_liftE _ same_refl)
    | apply (always_ret _ same_refl)
    | apply (always_raise _ same_refl)
    | match goal with
      | |- ∀ _, _ => intro
      | |- always _ (match ?x with _ => _ end) => destruct x
      | |- always _ (let _ := _ in _) => cbv zeta
      end ].

Lemma read_cam_attr_int_cases cam attr (w : St) :
  (∃ z, _read_cam_attr_int maya cam attr w = Ret z w)
  ∨ _read_cam_attr_int maya cam attr w
    = Raise (RuntimeError ("Missing '" +:+ attr +:+ "' on " +:+ cam)) w.
Proof.
  unfold _read_cam_attr_int.
  match goal with |- context [bind (tier ?b) _ w] =>
    assert (Hp : always (fun w w' : St => w' = w) b) by pure_steps;
    destruct (tier_ret b w Hp) as [r1 E1]; clear Hp end.
  rewrite !(bind_ret_eq _ _ _ _ _ E1). destruct r1 as [z|]; [left; by exists z|].
  match goal with |- context [bind (tier ?b) _ w] =>
    assert (Hp : always (fun w w' : St => w' = w) b) by pure_steps;
    destruct (tier_ret b w Hp) as [r2 E2]; clear Hp end.
  rewrite !(bind_ret_eq _ _ _ _ _ E2). destruct r2 as [z|]; [left; by exists z|].
  match goal with |- context [bind (tier ?b) _ w] =>
    assert (Hp : always (fun w w' : St => w' = w) b) by pure_steps;
    destruct (tier_ret b w Hp) as [r3 E3]; clear Hp end.
  rewrite !(bind_ret_eq _ _ _ _ _ E3). destruct r3 as [z|]; [left; by exists z|].
  right. reflexivity.
Qed.

(** X1: whatever the host does in any of the three tiers (context camera,
    plug on the node, plug on the first shape), reading a camera attribute
    either returns an integer or raises the [RuntimeError] that names the
    attribute and the camera; no other exception escapes, and the world is
    left as it was. *)
Theorem read_cam_attr_int_returns_or_reports_missing cam attr (w : St) :
  (∃ z, _read_cam_attr_int maya cam attr w = Ret z w)
  ∨ _read_cam_attr_int maya cam attr w
    = Raise (RuntimeError ("Missing '" +:+ attr +:+ "' on " +:+ cam)) w.
Proof. apply read_cam_attr_int_cases. Qed.

Lemma camera_pair_cases c1 c2 pre post (w : St) :
  (∃ h t, _read_cam_attr_int maya c1 "headIn" w = Ret h w
          ∧ _read_cam_attr_int maya c2 "tailOut" w = Ret t w
          ∧ ∀ A (f : Z -> Z -> A),
              bind (get_start_frame_from_layout_cam maya c1 pre)
                (fun sf => bind (get_end_frame_from_layout_cam maya c2 post)
                             (fun ef => ret (f sf ef))) w
              = Ret (f (h - pre)%Z (t + post)%Z) w)
  ∨ (∃ e, ∀ A (f : Z -> Z -> A),
        bind (get_start_frame_from_layout_cam maya c1 pre)
          (fun sf => bind (get_end_frame_from_layout_cam maya c2 post)
                       (fun ef => ret (f sf ef))) w
        = Raise e w).
Proof.
  unfold get_start_frame_from_layout_cam, get_end_frame_from_layout_cam.
  destruct (read_cam_attr_int_cases c1 "headIn" w) as [[h E1]|E1].
  - destruct (read_cam_attr_int_cases c2 "tailOut" w) as [[t E2]|E2].
    + left. exists h, t. split; [done|]. split; [done|]. intros A f.
      rewrite !bind_eval, E1. cbv beta iota. unfold ret at 1.
      rewrite !bind_eval, E2. reflexivity.
    + right. eexists. intros A f.
      rewrite !bind_eval, E1. cbv beta iota. unfold ret at 1.
      rewrite !bind_eval, E2. reflexivity.
  - right. eexists. intros A f. rewrite !bind_eval, E1. reflexivity.
Qed.

Lemma compute_range_cases method pre post fb (w : St) :
  (∃ r, compute_range maya method pre post fb w = Ret (Some r) w)
  ∨ (method = 1%Z ∧ fb = true
     ∧ compute_range maya method pre post fb w
       = Ret (Some ((playbackOptions_min maya (host w) - pre)%Z,
                    (playbackOptions_max maya (host w) + post)%Z))
           (log_warning (WTimelineFallback
                           (playbackOptions_min maya (host w) - pre)
                           (playbackOptions_max maya (host w) + post)) w))
  ∨ (method = 1%Z ∧ fb = false
     ∧ compute_range maya method pre post fb w
       = Ret None (log_warning WFailedReadHeadTail w)).
Proof.
  unfold compute_range.
  destruct (method =? 1)%Z eqn:E1.
  - apply Z.eqb_eq in E1. cbv zeta. rewrite try_except_eval, !bind_query, try_except_eval.
    match goal with |- context [get_start_frame_from_layout_cam maya ?a _] =>
      match goal with |- context [get_end_frame_from_layout_cam maya ?b _] =>
        destruct (camera_pair_cases a b pre post w) as [(h & t & _ & _ & E)|[e E]]
      end end.
    + left. eexists. rewrite (E _ (fun s e => Some (s, e))). reflexivity.
    + right. rewrite (E _ (fun s e => Some (s, e))). destruct fb.
      * left. done.
      * right. done.
  - left. destruct (method =? 2)%Z; eexists; reflexivity.
Qed.

(** X2: resolving the range never raises and changes nothing but the
    warning log.  It returns a range silently, or, only for the camera
    strategy, it falls back to the padded timeline with one warning (fallback
    allowed) or returns no range with one warning (fallback not allowed). *)
Theorem compute_range_never_raises method pre post fb (w : St) :
  (∃ r, compute_range maya method pre post fb w = Ret (Some r) w)
  ∨ (method = 1%Z ∧ fb = true
     ∧ compute_range maya method pre post fb w
       = Ret (Some ((playbackOptions_min maya (host w) - pre)%Z,
                    (playbackOptions_max maya (host w) + post)%Z))
           (log_warning (WTimelineFallback
                           (playbackOptions_min maya (host w) - pre)
                           (playbackOptions_max maya (host w) + post)) w))
  ∨ (method = 1%Z ∧ fb = false
     ∧ compute_range maya method pre post fb w
       = Ret None (log_warning WFailedReadHeadTail w)).
Proof. apply compute_range_cases. Qed.

(** X3: the preview and the run resolve the range alike.  When
    [_compute_preview_range] returns a range, [_on_run_bake]'s range block
    returns the same range, silently, with or without the fallback option;
    the preview raises only for the camera strategy, and then the run falls
    back to the padded timeline (option on) or gives up (option off), each
    with its warning.  The preview leaves the world as it was. *)
Theorem preview_range_agrees_with_run (w : St) :
  let method := radioButtonGrp_select maya (host w) in
  let pre := pre_pad maya w in
  let post := post_pad maya w in
  match _compute_preview_range maya w with
  | Ret r w' =>
      w' = w ∧ ∀ fb, compute_range maya method pre post fb w = Ret (Some r) w
  | Raise e w' =>
      w' = w ∧ method = 1%Z
      ∧ compute_range maya method pre post true w
        = Ret (Some (timeline_padded maya w))
            (log_warning (WTimelineFallback (fst (timeline_padded maya w))
                                            (snd (timeline_padded maya w))) w)
      ∧ compute_range maya method pre post false w
        = Ret None (log_warning WFailedReadHeadTail w)
  end.
Proof.
  intros method pre post.
  assert (Hp : _compute_preview_range maya w
               = (if (method =? 1)%Z then
                    let normalize l := str_replace maya "  (HT)" "" l in
                    bind (get_start_frame_from_layout_cam maya
                            (normalize (optionMenu_value maya "om_first" (host w))) pre)
                      (fun sf =>
                         bind (get_end_frame_from_layout_cam maya
                                 (normalize (optionMenu_value maya "om_last" (host w))) post)
                           (fun ef => ret (sf, ef)))
                  else if (method =? 2)%Z then
                    ret ((playbackOptions_min maya (host w) - pre)%Z,
                         (playbackOptions_max maya (host w) + post)%Z)
                  else
                    ret ((intField_value maya "if_start" (host w) - pre)%Z,
                         (intField_value maya "if_end" (host w) + post)%Z)) w).
  { unfold _compute_preview_range, method, pre, post, pre_pad, post_pad.
    rewrite !bind_query.
    destruct (checkBox_value maya "cb_prepost_enable" (host w)); cbv iota;
      repeat pstep;
      destruct (radioButtonGrp_select maya (host w) =? 1)%Z; [reflexivity| |reflexivity|];
      destruct (radioButtonGrp_select maya (host w) =? 2)%Z; reflexivity. }
  rewrite Hp. unfold compute_range, timeline_padded. fold pre post.
  destruct (method =? 1)%Z eqn:E1.
  - apply Z.eqb_eq in E1. cbv zeta.
    match goal with |- context [get_start_frame_from_layout_cam maya ?a _] =>
      match goal with |- context [get_end_frame_from_layout_cam maya ?b _] =>
        destruct (camera_pair_cases a b pre post w) as [(h & t & _ & _ & E)|[e E]]
      end end.
    + rewrite (E _ (fun s e => (s, e))). split; [done|]. intros fb.
      rewrite try_except_eval, !bind_query, try_except_eval.
      rewrite (E _ (fun s e => Some (s, e))). reflexivity.
    + rewrite (E _ (fun s e => (s, e))). split; [done|]. split; [done|].
      split; rewrite try_except_eval, !bind_query, try_except_eval;
        rewrite (E _ (fun s e => Some (s, e))); reflexivity.
  - destruct (method =? 2)%Z; (split; [reflexivity|]); intros fb; reflexivity.
Qed.

(** *** The rows of the list *)

Lemma populate_row_set_host h txt hb som r (v : St) :
  populate_row maya txt hb som r (set_host h v)
  = set_host h (populate_row maya txt hb som r v).
Proof.
  unfold populate_row. destruct (namespace r) as [ns|]; [|done].
  unfold _rig_pretty_label. simpl.
  repeat match goal with |- context [if ?b then _ else _] => destruct b end;
    reflexivity.
Qed.

Lemma populate_rows_set_host h txt hb som rigs (v : St) :
  foldl (fun v r => populate_row maya txt hb som r v) (set_host h v) rigs
  = set_host h (foldl (fun v r => populate_row maya txt hb som r v) v rigs).
Proof.
  revert v; induction rigs as [|r rigs IH]; intros v; simpl; [done|].
  rewrite populate_row_set_host. apply IH.
Qed.

(** The call of [_populate_list] rebuilds the rows from nothing, by a
    loop over the cache under the filters read from the window; the rest of
    it only talks to the widgets. *)
Lemma populate_list_eval (w : St) :
  ∃ h, _populate_list maya w
       = Ret tt (set_host h
                   (foldl (fun v r => populate_row maya
                                        (textField_text maya (host w))
                                        (checkBox_value maya "cb_hide_baked" (host w))
                                        (checkBox_value maya "cb_show_only_marked" (host w))
                                        r v)
                      (set_labels [] ∅ w) (_RIGS_CACHE w))).
Proof.
  unfold _populate_list. repeat pstep.
  erewrite bind_ret_eq by apply collect_filter_flags_eval. cbv beta iota.
  repeat pstep.
  erewrite bind_ret_eq by apply for_each_modify. cbv beta.
  change (host (set_labels [] ∅ w)) with (host w).
  change (_RIGS_CACHE (set_host (tsl_remove_all maya (host w)) (set_labels [] ∅ w)))
    with (_RIGS_CACHE w).
  rewrite populate_rows_set_host.
  match goal with
  | |- context [foldl ?f (set_labels [] ∅ w) (_RIGS_CACHE w)] =>
    set (w3 := foldl f (set_labels [] ∅ w) (_RIGS_CACHE w))
  end.
  pstep.
  match goal with |- context [bind (for_each _ ?l) _ ?x] =>
    destruct (for_each_command (tsl_append maya) l x) as [h4 E4] end.
  erewrite bind_ret_eq by apply E4. cbv beta.
  assert (Hgoal : ∀ h h', ∃ h'', _update_counts maya (set_host h (set_host h' w3))
                                = Ret tt (set_host h'' w3)).
  { intros h h'. destruct (update_counts_ret maya (set_host h (set_host h' w3))) as [h'' ->].
    by exists h''. }
  destruct (labels_to_namespaces _ _); cbv iota.
  - pstep. apply Hgoal.
  - rewrite bind_eval, bind_gets.
    destruct (rows_to_select _ _ _ _); cbv iota beta.
    + apply Hgoal.
    + unfold command at 1. apply Hgoal.
Qed.

Lemma rig_pretty_label_core ns nm (v w : St) :
  _STATUS v = _STATUS w → _MARKED_NS v = _MARKED_NS w →
  _rig_pretty_label ns nm v = _rig_pretty_label ns nm w.
Proof. intros Hs Hm. unfold _rig_pretty_label. by rewrite Hs, Hm. Qed.

Lemma populate_row_cases txt hb som r (v : St) :
  (populate_row maya txt hb som r v = v
   ∧ ∀ l ns, ¬ rig_row maya v txt hb som r l ns)
  ∨ (∃ ns, rig_row maya v txt hb som r (_rig_pretty_label ns (actor_name r) v) ns
           ∧ populate_row maya txt hb som r v
             = set_labels (_LIST_LABELS v ++ [_rig_pretty_label ns (actor_name r) v])
                 (<[_rig_pretty_label ns (actor_name r) v := ns]> (_LABEL2NS v)) v).
Proof.
  unfold populate_row, rig_row.
  destruct (namespace r) as [ns|]; [|left; split; [done|]; naive_solver].
  destruct (truthy ns) eqn:Ht; simpl;
    [|left; split; [done|]; intros l ns' ([= <-] & ? & _); congruence].
  destruct (hb && eq_one (bind_skeleton_driver r)) eqn:E1.
  { left. split; [done|]. apply andb_true_iff in E1 as [-> Eb].
    intros l ns' (_ & _ & _ & Hh & _). specialize (Hh eq_refl). congruence. }
  destruct (som && negb (bool_decide (ns ∈ _MARKED_NS v))) eqn:E2.
  { left. split; [done|]. apply andb_true_iff in E2 as [-> Em].
    apply negb_true_iff, bool_decide_eq_false in Em.
    intros l ns' ([= <-] & _ & _ & _ & Hh & _). by specialize (Hh eq_refl). }
  destruct (negb (String.eqb txt "") && negb (is_substring _ _)) eqn:E3.
  { left. split; [done|]. apply andb_true_iff in E3 as [Et Es].
    apply negb_true_iff in Et, Es. apply String.eqb_neq in Et.
    intros l ns' ([= <-] & _ & -> & _ & _ & Hh). specialize (Hh Et). congruence. }
  right. exists ns. repeat split; try done.
  - intros ->. done.
  - intros ->. simpl in E2. by apply negb_false_iff, bool_decide_eq_true in E2.
  - intros Hne. apply String.eqb_neq in Hne. rewrite Hne in E3. simpl in E3.
    by apply negb_false_iff in E3.
Qed.

Lemma rig_row_core txt hb som r l ns (v w : St) :
  _STATUS v = _STATUS w → _MARKED_NS v = _MARKED_NS w →
  rig_row maya v txt hb som r l ns ↔ rig_row maya w txt hb som r l ns.
Proof.
  intros Hs Hm. unfold rig_row.
  by rewrite (rig_pretty_label_core ns (actor_name r) v w Hs Hm), Hm.
Qed.

Lemma rig_row_label txt hb som r l1 ns1 l2 ns2 (w : St) :
  rig_row maya w txt hb som r l1 ns1 → rig_row maya w txt hb som r l2 ns2 →
  l1 = l2 ∧ ns1 = ns2.
Proof. intros (E1 & _ & -> & _) (E2 & _ & -> & _). split; congruence. Qed.

Lemma populate_rows_spec txt hb som (w : St) rigs :
  ∀ v : St, _STATUS v = _STATUS w → _MARKED_NS v = _MARKED_NS w →
  let v' := foldl (fun v r => populate_row maya txt hb som r v) v rigs in
  (∀ l, l ∈ _LIST_LABELS v'
        ↔ l ∈ _LIST_LABELS v ∨ ∃ r ns, r ∈ rigs ∧ rig_row maya w txt hb som r l ns)
  ∧ (∀ l ns, _LABEL2NS v' !! l = Some ns →
             _LABEL2NS v !! l = Some ns
             ∨ ∃ r, r ∈ rigs ∧ rig_row maya w txt hb som r l ns)
  ∧ ((∀ l, l ∈ _LIST_LABELS v ↔ is_Some (_LABEL2NS v !! l)) →
     ∀ l, l ∈ _LIST_LABELS v' ↔ is_Some (_LABEL2NS v' !! l))
  ∧ length (_LIST_LABELS v') ≤ length (_LIST_LABELS v) + length rigs.
Proof.
  induction rigs as [|r rigs IH]; intros v Hs Hm; simpl.
  - split; [|split; [|split]]; [|by left|done|lia].
    intros l. split; [by left|]. intros [?|(r & ns & Hr & _)]; [done|].
    by apply elem_of_nil in Hr.
  - destruct (populate_row_cases txt hb som r v) as [[-> Hno]|(ns0 & Hrow & ->)].
    + destruct (IH v Hs Hm) as (H1 & H2 & H3 & H4).
      split; [|split; [|split]]; [| |done|lia].
      * intros l. rewrite H1. split.
        -- intros [?|(r' & ns & Hr & Hrr)]; [by left|]. right. exists r', ns.
           split; [by right|done].
        -- intros [?|(r' & ns & Hr & Hrr)]; [by left|].
           apply elem_of_cons in Hr as [->|Hr].
           ++ apply (rig_row_core _ _ _ _ _ _ v w Hs Hm) in Hrr. by apply Hno in Hrr.
           ++ right. by exists r', ns.
      * intros l ns Hl. destruct (H2 l ns Hl) as [?|(r' & Hr & Hrr)]; [by left|].
        right. exists r'. split; [by right|done].
    + apply (rig_row_core _ _ _ _ _ _ v w Hs Hm) in Hrow.
      set (lab := _rig_pretty_label ns0 (actor_name r) v) in *.
      destruct (IH (set_labels (_LIST_LABELS v ++ [lab]) (<[lab:=ns0]> (_LABEL2NS v)) v)
                  Hs Hm) as (H1 & H2 & H3 & H4).
      simpl in H1, H2, H3, H4. rewrite length_app in H4. simpl in H4.
      split; [|split; [|split]]; [| | |lia].
      * intros l. rewrite H1, elem_of_app, list_elem_of_singleton. split.
        -- intros [[?| ->]|(r' & ns & Hr & Hrr)]; [by left| |].
           ++ right. exists r, ns0. split; [by left|done].
           ++ right. exists r', ns. split; [by right|done].
        -- intros [?|(r' & ns & Hr & Hrr)]; [by left; left|].
           apply elem_of_cons in Hr as [->|Hr].
           ++ destruct (rig_row_label _ _ _ _ _ _ _ _ _ Hrr Hrow) as [-> _].
              left. by right.
           ++ right. by exists r', ns.
      * intros l ns Hl. destruct (H2 l ns Hl) as [Hl'|(r' & Hr & Hrr)].
        -- destruct (decide (l = lab)) as [->|Hne].
           ++ rewrite lookup_insert_eq in Hl'. injection Hl' as <-.
              right. exists r. split; [by left|done].
           ++ rewrite lookup_insert_ne in Hl' by done. by left.
        -- right. exists r'. split; [by right|done].
      * intros Hk. apply H3. intros l.
        rewrite elem_of_app, list_elem_of_singleton.
        destruct (decide (l = lab)) as [->|Hne].
        -- rewrite lookup_insert_eq. split; [by eexists|by right].
        -- rewrite lookup_insert_ne by done. rewrite <- Hk. naive_solver.
Qed.

Lemma rig_row_no_text txt hb som r l ns (w : St) :
  rig_row maya w txt hb som r l ns → rig_row maya w "" hb som r l ns.
Proof. unfold rig_row. naive_solver. Qed.

Lemma populate_rows_sublist txt hb som rigs :
  ∀ v1 v2 : St, _STATUS v1 = _STATUS v2 → _MARKED_NS v1 = _MARKED_NS v2 →
  _LIST_LABELS v1 `sublist_of` _LIST_LABELS v2 →
  _LIST_LABELS (foldl (fun v r => populate_row maya txt hb som r v) v1 rigs)
  `sublist_of`
  _LIST_LABELS (foldl (fun v r => populate_row maya "" hb som r v) v2 rigs).
Proof.
  induction rigs as [|r rigs IH]; intros v1 v2 Hs Hm Hsub; simpl; [done|].
  destruct (populate_row_cases txt hb som r v1) as [[-> _]|(ns1 & Hrow1 & ->)];
    destruct (populate_row_cases "" hb som r v2) as [[-> Hno]|(ns2 & Hrow2 & ->)];
    apply IH; simpl; try done.
  - by apply sublist_inserts_r.
  - apply rig_row_no_text, (rig_row_core _ _ _ _ _ _ v1 v2 Hs Hm) in Hrow1.
    by apply Hno in Hrow1.
  - apply rig_row_no_text, (rig_row_core _ _ _ _ _ _ v1 v2 Hs Hm) in Hrow1.
    destruct (rig_row_label _ _ _ _ _ _ _ _ _ Hrow1 Hrow2) as [-> _].
    by apply sublist_app.
Qed.

(** X4: [_populate_list] returns normally and leaves the two structures
    behind the list in agreement: a label is a row of [_LIST_LABELS] exactly
    when it is a key of [_LABEL2NS]; there are at most as many rows as rigs
    in the cache; statuses, marks, cache, backup and logs are untouched. *)
Theorem populate_list_rows_are_keys (w : St) :
  ∃ w', _populate_list maya w = Ret tt w'
    ∧ (∀ l, l ∈ _LIST_LABELS w' ↔ is_Some (_LABEL2NS w' !! l))
    ∧ length (_LIST_LABELS w') ≤ length (_RIGS_CACHE w)
    ∧ core_same w w'.
Proof.
  destruct (populate_list_eval w) as [h E].
  destruct (populate_list_ret maya w) as (w' & E' & Hc & _).
  exists w'. split; [done|]. rewrite E in E'. injection E' as <-.
  match goal with |- context [foldl ?f ?v ?l] =>
    destruct (populate_rows_spec (textField_text maya (host w))
                (checkBox_value maya "cb_hide_baked" (host w))
                (checkBox_value maya "cb_show_only_marked" (host w))
                w l v eq_refl eq_refl) as (_ & _ & H3 & H4)
  end.
  simpl in *. split; [|split; [lia|done]].
  apply H3. intros l. rewrite lookup_empty. split.
  - intros Hin. by apply elem_of_nil in Hin.
  - by intros [? ?].
Qed.

(** X5: the rows that [_populate_list] shows are exactly the labels of the
    rigs of the cache that have a namespace and pass the three filters read
    from the window (hide baked, only marked, text), and every key of
    [_LABEL2NS] maps to the namespace of such a rig. *)
Theorem populate_list_shows_filtered_rigs (w : St) :
  let w' := state_after (_populate_list maya w) in
  (∀ l, l ∈ _LIST_LABELS w' ↔ ∃ ns, shown_in maya w l ns)
  ∧ (∀ l ns, _LABEL2NS w' !! l = Some ns → shown_in maya w l ns).
Proof.
  destruct (populate_list_eval w) as [h E]. rewrite E. cbv zeta. unfold state_after.
  match goal with |- context [foldl ?f ?v ?l] =>
    destruct (populate_rows_spec (textField_text maya (host w))
                (checkBox_value maya "cb_hide_baked" (host w))
                (checkBox_value maya "cb_show_only_marked" (host w))
                w l v eq_refl eq_refl) as (H1 & H2 & _ & _)
  end.
  simpl in *. unfold shown_in. split.
  - intros l. rewrite H1. split.
    + intros [Hin|(r & ns & Hr & Hrow)]; [by apply elem_of_nil in Hin|].
      exists ns, r. done.
    + intros (ns & r & Hr & Hrow). right. by exists r, ns.
  - intros l ns Hl. destruct (H2 l ns Hl) as [Hl'|Hr]; [|done].
    by rewrite lookup_empty in Hl'.
Qed.

(** X6: typing a filter text only hides rows.  On the same statuses, marks
    and cache and with the same two check boxes, the rows shown under any
    filter text are a sublist (same order, none added) of the rows shown
    under the empty text. *)
Theorem filter_text_only_hides_rows (w1 w2 : St) :
  _STATUS w1 = _STATUS w2 → _MARKED_NS w1 = _MARKED_NS w2 →
  _RIGS_CACHE w1 = _RIGS_CACHE w2 →
  checkBox_value maya "cb_hide_baked" (host w1)
  = checkBox_value maya "cb_hide_baked" (host w2) →
  checkBox_value maya "cb_show_only_marked" (host w1)
  = checkBox_value maya "cb_show_only_marked" (host w2) →
  textField_text maya (host w2) = "" →
  _LIST_LABELS (state_after (_populate_list maya w1))
  `sublist_of` _LIST_LABELS (state_after (_populate_list maya w2)).
Proof.
  intros Hs Hm Hr Hhb Hsom Htxt.
  destruct (populate_list_eval w1) as [h1 ->].
  destruct (populate_list_eval w2) as [h2 ->].
  unfold state_after. rewrite Hr, Hhb, Hsom, Htxt.
  change (_LIST_LABELS (set_host ?h ?v)) with (_LIST_LABELS v).
  by apply populate_rows_sublist.
Qed.

(** *** Marks *)

Lemma marked_toggle_twice x (w : St) : marked_toggle x (marked_toggle x w) = w.
Proof.
  unfold marked_toggle, marked_discard, marked_add. simpl.
  destruct (decide (x ∈ _MARKED_NS w)) as [Hin|Hin]; simpl.
  - rewrite decide_False by set_solver. unfold set_MARKED_NS. simpl.
    replace ({[x]} ∪ _MARKED_NS w ∖ {[x]}) with (_MARKED_NS w).
    + apply world_eta.
    + apply set_eq. intros y. destruct (decide (y = x)); set_solver.
  - rewrite decide_True by set_solver. unfold set_MARKED_NS. simpl.
    replace (({[x]} ∪ _MARKED_NS w) ∖ {[x]}) with (_MARKED_NS w) by set_solver.
    apply world_eta.
Qed.

Lemma marked_toggle_comm x y (w : St) :
  marked_toggle x (marked_toggle y w) = marked_toggle y (marked_toggle x w).
Proof.
  destruct (decide (x = y)) as [->|Hne]; [done|].
  unfold marked_toggle, marked_discard, marked_add, set_MARKED_NS. simpl.
  destruct (decide (y ∈ _MARKED_NS w)) as [Hy|Hy];
    destruct (decide (x ∈ _MARKED_NS w)) as [Hx|Hx]; simpl.
  - rewrite decide_True by set_solver. rewrite decide_True by set_solver.
    simpl. f_equal. set_solver.
  - rewrite decide_False by set_solver. rewrite decide_True by set_solver.
    simpl. f_equal. set_solver.
  - rewrite decide_True by set_solver. rewrite decide_False by set_solver.
    simpl. f_equal. set_solver.
  - rewrite decide_False by set_solver. rewrite decide_False by set_solver.
    simpl. f_equal. set_solver.
Qed.

Lemma toggles_after_toggle x l :
  ∀ w : St, foldl (fun w y => marked_toggle y w) (marked_toggle x w) l
            = marked_toggle x (foldl (fun w y => marked_toggle y w) w l).
Proof.
  induction l as [|y l IH]; intros w; simpl; [done|].
  by rewrite marked_toggle_comm, IH.
Qed.

Lemma toggles_twice l :
  ∀ w : St, foldl (fun w y => marked_toggle y w)
              (foldl (fun w y => marked_toggle y w) w l) l = w.
Proof.
  induction l as [|x l IH]; intros w; simpl; [done|].
  by rewrite (toggles_after_toggle x l w), marked_toggle_twice, IH.
Qed.

Lemma toggles_marks l :
  ∀ v w : St, _MARKED_NS v = _MARKED_NS w →
  _MARKED_NS (foldl (fun w y => marked_toggle y w) v l)
  = _MARKED_NS (foldl (fun w y => marked_toggle y w) w l).
Proof.
  induction l as [|x l IH]; intros v w Hm; simpl; [done|].
  apply IH. unfold marked_toggle, marked_discard, marked_add. rewrite Hm.
  by destruct (decide (x ∈ _MARKED_NS w)).
Qed.

(** X7: toggling the same selection twice gives the marks back.  When the
    rows selected after a first [_toggle_selected] stand for the same
    namespaces as before it, a second [_toggle_selected] returns the marked
    set to what it was, whether or not the selection names a namespace more
    than once. *)
Theorem toggle_selected_twice_restores_marks (w : St) :
  let w1 := state_after (_toggle_selected maya w) in
  labels_to_namespaces (_LABEL2NS w1) (tsl_selected_items maya (host w1))
  = labels_to_namespaces (_LABEL2NS w) (tsl_selected_items maya (host w)) →
  ∃ w2, _toggle_selected maya w1 = Ret tt w2 ∧ _MARKED_NS w2 = _MARKED_NS w.
Proof.
  intros w1 Hsel.
  destruct (selected_op_spec maya marked_toggle w marked_toggle_step)
    as (v1 & E1 & Hm1 & _).
  destruct (selected_op_spec maya marked_toggle w1 marked_toggle_step)
    as (v2 & E2 & Hm2 & _).
  change (_toggle_selected maya w = Ret tt v1) in E1.
  change (_toggle_selected maya w1 = Ret tt v2) in E2.
  exists v2. split; [done|]. rewrite Hm2, Hsel.
  assert (w1 = v1) as -> by (unfold w1; by rewrite E1).
  rewrite (toggles_marks _ _ _ Hm1), toggles_twice. done.
Qed.

(** X8: [_clear_all_marks] returns normally and leaves nothing marked; it
    keeps every status and the cache, and when nothing was marked it does
    not even rebuild the list. *)
Theorem clear_all_marks_unmarks_everything (w : St) :
  ∃ w', _clear_all_marks maya w = Ret tt w'
    ∧ _MARKED_NS w' = ∅ ∧ _STATUS w' = _STATUS w ∧ _RIGS_CACHE w' = _RIGS_CACHE w
    ∧ (if decide (_MARKED_NS w = ∅) then w' = w else labels_ok w').
Proof.
  unfold _clear_all_marks. rewrite bind_gets.
  destruct (decide (_MARKED_NS w = ∅)) as [He|Hne].
  - exists w. done.
  - rewrite bind_modify.
    destruct (populate_list_ret maya (set_MARKED_NS ∅ w)) as (w' & E & Hc & Hl).
    exists w'. split; [done|]. unfold core_same in Hc. simpl in Hc. naive_solver.
Qed.

(** *** Refresh and counts *)

Lemma list_scene_rigs_mirrors (w : St) actors rigs :
  try_except (queryE (get_all_actors_in_scene maya)) (fun _ => ret []) w = Ret actors w →
  list_scene_rigs maya w = Ret rigs w →
  Forall2 (fun a r => namespace r = a_namespace a ∧ actor_name r = a_actor_name a)
    actors rigs.
Proof.
  intros Ea Er. unfold list_scene_rigs in Er.
  rewrite (bind_ret_eq _ _ _ _ _ Ea) in Er.
  match type of Er with for_collect ?f _ _ = _ =>
    destruct (for_collect_pure f actors w) as (ys & Ey & Hall) end.
  { intros a. destruct (a_namespace a) as [ns|]; [|eexists; reflexivity].
    destruct (truthy ns); [|eexists; reflexivity].
    destruct (read_bind_driver_ret maya ns w) as [v Ev].
    eexists. rewrite (bind_ret_eq _ _ _ _ _ Ev). reflexivity. }
  rewrite Ey in Er. injection Er as <-.
  eapply Forall2_impl; [exact Hall|]. intros a r Hr. cbv beta in Hr.
  rewrite bind_eval in Hr.
  destruct (match a_namespace a with
            | Some s => if truthy s then _read_bind_driver maya s else ret PyNone
            | None => ret PyNone
            end w) as [v w'|e w']; [|done].
  unfold ret in Hr. injection Hr as <- _. done.
Qed.

(** X9: a refresh makes the cache mirror the actors the scene reports: one
    rig per actor, in the same order, with its namespace and name.  When
    the scene query raises, the refresh still returns normally, with an
    empty cache and every mark dropped, and with the statuses kept. *)
Theorem refresh_cache_mirrors_actors (w : St) :
  match get_all_actors_in_scene maya (host w) with
  | inr actors =>
      ∃ w', _refresh_rigs_cache maya w = Ret tt w'
        ∧ Forall2 (fun a r => namespace r = a_namespace a
                              ∧ actor_name r = a_actor_name a)
            actors (_RIGS_CACHE w')
  | inl _ =>
      _refresh_rigs_cache maya w = Ret tt (set_MARKED_NS ∅ (set_RIGS_CACHE [] w))
  end.
Proof.
  destruct (refresh_spec maya w) as (rigs & Er & E).
  destruct (get_all_actors_in_scene maya (host w)) as [e|actors] eqn:Ea.
  - assert (rigs = []) as ->.
    { unfold list_scene_rigs in Er. rewrite bind_eval, try_except_eval in Er.
      unfold queryE in Er. rewrite Ea in Er. simpl in Er. unfold ret in Er. congruence. }
    rewrite E. simpl. f_equal. unfold set_STATUS, set_MARKED_NS, set_RIGS_CACHE. simpl.
    f_equal. unfold scene_namespaces. simpl. set_solver.
  - eexists. split; [exact E|]. simpl.
    apply (list_scene_rigs_mirrors w); [|done].
    rewrite try_except_eval. unfold queryE. by rewrite Ea.
Qed.

Lemma count_status_sum st (rigs : list Rig) :
  let n s := length (List.filter
                       (fun r => match namespace r with
                                 | Some ns => truthy ns && bool_decide (status_get st ns = s)
                                 | None => false
                                 end) rigs) in
  n St_baked + n St_skipped + n St_failed + n St_canceled + n St_not
  = length (List.filter (fun r => match namespace r with
                                  | Some ns => truthy ns
                                  | None => false
                                  end) rigs).
Proof.
  induction rigs as [|r rigs IH]; [done|]. cbv zeta in *. simpl.
  destruct (namespace r) as [ns|]; [|exact IH].
  destruct (truthy ns); [|exact IH]. simpl.
  destruct (status_get st ns); simpl; lia.
Qed.

(** X10: the five status counts that [_update_counts] shows add up to the
    number of rigs of the cache that have a namespace: every such rig is
    counted once, under the status [_status_get] gives it. *)
Theorem status_counts_add_up (w : St) :
  count_status St_baked w + count_status St_skipped w + count_status St_failed w
  + count_status St_canceled w + count_status St_not w
  = length (List.filter (fun r => match namespace r with
                                  | Some ns => truthy ns
                                  | None => false
                                  end) (_RIGS_CACHE w)).
Proof. apply (count_status_sum (_STATUS w) (_RIGS_CACHE w)). Qed.

(** *** Broken expressions *)

Lemma bookkeeping_refl (w : St) : bookkeeping_same w w.
Proof. by unfold bookkeeping_same. Qed.

Lemma bookkeeping_trans (a b c : St) :
  bookkeeping_same a b → bookkeeping_same b c → bookkeeping_same a c.
Proof. unfold bookkeeping_same. naive_solver congruence. Qed.

Lemma list_broken_expressions_spec (w : St) :
  ∃ broken, _list_broken_expressions maya w = Ret broken w
    ∧ Forall (fun b => b.1 ∈ ls_type maya "expression" (host w)
                       ∧ b.2 ≠ []
                       ∧ Forall (fun n => objExists maya n (host w) = false) b.2)
        broken.
Proof.
  unfold _list_broken_expressions. rewrite bind_query.
  match goal with |- context [bind (for_collect ?f ?l) _ w] =>
    destruct (for_collect_pure f l w) as (found & Ef & Hall) end.
  { intros ex. rewrite bind_eval, try_except_eval, bind_eval. unfold queryE.
    destruct (getAttr_expression maya _ _) as [e|txt]; [eexists; reflexivity|].
    cbv beta iota. unfold ret at 1. cbv beta iota. rewrite bind_gets.
    destruct (List.filter _ _); eexists; reflexivity. }
  rewrite (bind_ret_eq _ _ _ _ _ Ef). eexists. split; [reflexivity|].
  apply Forall_forall. intros [ex missing] Hin.
  apply list_elem_of_omap in Hin as (y & Hy & Hy'). simpl in Hy'. subst y.
  apply list_elem_of_lookup in Hy as [i Hi].
  destruct (Forall2_lookup_r _ _ _ _ _ Hall Hi) as (ex' & Hex & Hf).
  cbv beta in Hf. rewrite bind_eval, try_except_eval, bind_eval in Hf.
  unfold queryE in Hf.
  destruct (getAttr_expression maya _ _) as [e|txt]; [done|].
  cbv beta iota in Hf. unfold ret at 1 in Hf. cbv beta iota in Hf.
  rewrite bind_gets in Hf.
  destruct (List.filter _ _) as [|n miss] eqn:Em; [done|].
  unfold ret in Hf. injection Hf as <- <-. simpl.
  split; [by eapply list_elem_of_lookup_2|]. split; [done|].
  apply Forall_forall. intros x Hx. apply list_elem_of_In in Hx.
  rewrite <- Em in Hx. apply filter_In in Hx as [_ Hx].
  by apply negb_true_iff in Hx.
Qed.

Lemma dict_set_keys k v d x :
  x ∈ (dict_set k v d).*1 ↔ x = k ∨ x ∈ d.*1.
Proof.
  induction d as [|[k' v'] d IH]; simpl.
  - rewrite list_elem_of_singleton. split; [by left|]. intros [?|Hx]; [done|].
    by apply elem_of_nil in Hx.
  - destruct (String.eqb k k') eqn:Ek; simpl.
    + apply String.eqb_eq in Ek. subst k'. rewrite !elem_of_cons. naive_solver.
    + rewrite !elem_of_cons, IH. naive_solver.
Qed.

Lemma dict_set_NoDup k v d : NoDup d.*1 → NoDup (dict_set k v d).*1.
Proof.
  induction d as [|[k' v'] d IH]; simpl; intros Hn.
  - apply NoDup_singleton.
  - apply NoDup_cons in Hn as [Hk Hn].
    destruct (String.eqb k k') eqn:Ek; simpl.
    + apply String.eqb_eq in Ek. subst k'. by apply NoDup_cons.
    + apply String.eqb_neq in Ek. apply NoDup_cons. split; [|by apply IH].
      rewrite dict_set_keys. naive_solver.
Qed.

Lemma mute_loop (broken : list (string * list string)) :
  ∀ (w : St) items, _muted_expr_backup w = Some items → NoDup items.*1 →
  ∃ w' items',
    for_each
      (fun '(ex, _missing) =>
         try_except
           (bind (queryE (getAttr_expression maya (ex +:+ ".expression")))
              (fun txt => bind (backup_setitem ex txt)
                            (fun _ => commandE (expression_edit maya ex ""))))
           (fun _ => warning (WCouldNotMute ex)))
      broken w = Ret tt w'
    ∧ _muted_expr_backup w' = Some items' ∧ NoDup items'.*1
    ∧ (∀ ex, ex ∈ items'.*1 → ex ∈ items.*1 ∨ ex ∈ broken.*1)
    ∧ bookkeeping_same w w'.
Proof.
  induction broken as [|[ex miss] broken IH]; intros w items Hb Hn; simpl.
  - exists w, items. split; [done|]. split; [done|]. split; [done|].
    split; [by left|apply bookkeeping_refl].
  - rewrite bind_eval, try_except_eval, bind_eval. unfold queryE.
    assert (Hnext : ∀ w1 items1, _muted_expr_backup w1 = Some items1 → NoDup items1.*1 →
              (∀ x, x ∈ items1.*1 → x = ex ∨ x ∈ items.*1) → bookkeeping_same w w1 →
              ∃ w' items',
                for_each
                  (fun '(ex, _missing) =>
                     try_except
                       (bind (queryE (getAttr_expression maya (ex +:+ ".expression")))
                          (fun txt => bind (backup_setitem ex txt)
                                        (fun _ => commandE (expression_edit maya ex ""))))
                       (fun _ => warning (WCouldNotMute ex)))
                  broken w1 = Ret tt w'
                ∧ _muted_expr_backup w' = Some items' ∧ NoDup items'.*1
                ∧ (∀ x, x ∈ items'.*1 → x ∈ items.*1 ∨ x ∈ ex :: broken.*1)
                ∧ bookkeeping_same w w').
    { intros w1 items1 Hb1 Hn1 Hk1 Hs1.
      destruct (IH w1 items1 Hb1 Hn1) as (w' & items' & E & Hb' & Hn' & Hk' & Hs').
      exists w', items'. split; [done|]. split; [done|]. split; [done|].
      split; [|by eapply bookkeeping_trans].
      intros x Hx. rewrite elem_of_cons.
      destruct (Hk' x Hx) as [Hx1|Hx1]; [|by right; right].
      destruct (Hk1 x Hx1); [right; by left|by left]. }
    destruct (getAttr_expression maya _ _) as [e|txt]; cbv beta iota.
    + unfold warning, modify. cbv beta.
      apply (Hnext _ items); [done|done|by right|by unfold bookkeeping_same].
    + unfold backup_setitem. rewrite bind_eval, bind_gets, Hb. unfold modify at 1.
      cbv beta iota. unfold commandE. simpl.
      destruct (expression_edit maya ex "" (host w)) as [[] h|e h]; cbv beta iota.
      * apply (Hnext _ (dict_set ex txt items));
          [done|by apply dict_set_NoDup| |by unfold bookkeeping_same].
        intros x Hx. by apply dict_set_keys in Hx.
      * unfold warning, modify. cbv beta.
        apply (Hnext _ (dict_set ex txt items));
          [done|by apply dict_set_NoDup| |by unfold bookkeeping_same].
        intros x Hx. by apply dict_set_keys in Hx.
Qed.

Lemma mute_broken_expressions_spec (w : St) :
  ∃ broken items w',
    mute_broken_expressions maya w = Ret broken w'
    ∧ Forall (fun b => b.1 ∈ ls_type maya "expression" (host w)
                       ∧ b.2 ≠ []
                       ∧ Forall (fun n => objExists maya n (host w) = false) b.2)
        broken
    ∧ _muted_expr_backup w' = Some items ∧ NoDup items.*1
    ∧ (∀ ex, ex ∈ items.*1 → ex ∈ broken.*1)
    ∧ bookkeeping_same w w'.
Proof.
  destruct (list_broken_expressions_spec (set_muted_expr_backup (Some []) w))
    as (broken & Eb & Hbroken).
  unfold mute_broken_expressions. rewrite bind_modify.
  rewrite (bind_ret_eq _ _ _ _ _ Eb).
  destruct (mute_loop broken (set_muted_expr_backup (Some []) w) [] eq_refl)
    as (w' & items & E & Hb & Hn & Hk & Hs); [apply NoDup_nil_2|].
  rewrite bind_eval, E. exists broken, items, w'.
  split; [done|]. split; [done|]. split; [done|]. split; [done|]. split.
  - intros ex Hex. destruct (Hk ex Hex) as [Hx|Hx]; [|done]. by apply elem_of_nil in Hx.
  - apply (bookkeeping_trans w (set_muted_expr_backup (Some []) w) w'); [|done].
    by unfold bookkeeping_same.
Qed.


(** X12: muting never raises, whatever the scene does.  It returns the
    broken expressions it found, binds [_muted_expr_backup] to a fresh dict
    whose keys are distinct and are among the expressions returned (what an
    earlier mute had backed up is gone), and leaves statuses, marks, cache,
    rows and call log as they were. *)
Theorem mute_backs_up_broken_expressions_only (w : St) :
  ∃ broken items w',
    mute_broken_expressions maya w = Ret broken w'
    ∧ Forall (fun b => b.1 ∈ ls_type maya "expression" (host w)
                       ∧ b.2 ≠ []
                       ∧ Forall (fun n => objExists maya n (host w) = false) b.2)
        broken
    ∧ _muted_expr_backup w' = Some items ∧ NoDup items.*1
    ∧ (∀ ex, ex ∈ items.*1 → ex ∈ broken.*1)
    ∧ bookkeeping_same w w'.
Proof. apply mute_broken_expressions_spec. Qed.

(** X13: a restore that follows a mute never raises: the mute has bound
    the backup, and the restore empties it, in every world, even one where
    the backup had never been bound before. *)
Theorem restore_after_mute_never_raises (w : St) :
  ∃ broken w1 w2,
    mute_broken_expressions maya w = Ret broken w1
    ∧ restore_muted_expressions maya w1 = Ret tt w2
    ∧ _muted_expr_backup w2 = Some []
    ∧ bookkeeping_same w w2.
Proof.
  destruct (mute_broken_expressions_spec w) as (broken & items & w1 & E & _ & Hb & _ & _ & Hs).
  exists broken, w1. unfold restore_muted_expressions. rewrite bind_gets, Hb.
  destruct (restore_loop maya items w1) as (w2 & E2 & _ & Hst & Hm & Hc).
  assert (Hmore : _RIGS_CACHE w2 = _RIGS_CACHE w1 ∧ _LIST_LABELS w2 = _LIST_LABELS w1
                  ∧ _LABEL2NS w2 = _LABEL2NS w1).
  { clear -E2. revert w1 E2. induction items as [|[ex txt] items IH]; intros w1 E2.
    - simpl in E2. unfold ret in E2. by injection E2 as <-.
    - simpl in E2. rewrite bind_eval, bind_query in E2.
      destruct (objExists maya ex (host w1)).
      + rewrite try_except_eval in E2. unfold commandE in E2.
        destruct (expression_edit maya ex txt (host w1)) as [[] h|e h];
          cbv beta iota in E2; [|unfold warning, modify in E2];
          apply IH in E2; simpl in E2; done.
      + by apply IH in E2. }
  rewrite bind_eval, E2. unfold modify. eexists. split; [done|]. split; [done|].
  split; [done|]. unfold bookkeeping_same in *. simpl. naive_solver congruence.
Qed.

(** *** The calls to the retarget service *)

Lemma failure_warnings_app l1 l2 :
  failure_warnings (l1 ++ l2) = failure_warnings l1 ++ failure_warnings l2.
Proof. unfold failure_warnings. apply omap_app. Qed.

Lemma item_case_calls ns s e bsd outcome calls warns :
  item_case ns s e bsd outcome calls warns →
  warns = failure_warnings calls
  ∧ call_ns <$> calls `sublist_of` [ns]
  ∧ Forall (fun c => call_range c = (s, e)) calls
  ∧ (outcome = St_baked ↔ (ns, s, e, true) ∈ calls)
  ∧ (outcome = St_failed ↔ (ns, s, e, false) ∈ calls)
  ∧ (∀ c, c ∈ calls → call_ns c = ns).
Proof.
  intros [(_ & -> & -> & ->)|[(_ & -> & -> & ->)|(_ & -> & -> & ->)]];
    (split; [done|]); (split; [simpl; try done; by apply sublist_nil_l|]);
    (split; [by repeat constructor|]); set_solver.
Qed.

Lemma bake_loop_calls namespaces s e total l :
  ∀ n (w : St), drop n namespaces = l →
  ∃ w' new,
    for_enumerate (bake_iteration maya namespaces s e total) (S n) l w = Ret tt w'
    ∧ bake_calls w' = bake_calls w ++ new
    ∧ warnings w' = warnings w ++ failure_warnings new
    ∧ call_ns <$> new `sublist_of` l
    ∧ Forall (fun c => call_range c = (s, e)) new
    ∧ (NoDup l → Forall (fun ns => truthy ns = true) l →
       ∀ ns, ns ∈ l →
         (status_get (_STATUS w') ns = St_baked ↔ (ns, s, e, true) ∈ new)
         ∧ (status_get (_STATUS w') ns = St_failed ↔ (ns, s, e, false) ∈ new)).
Proof.
  induction l as [|x l IH]; intros n w Hd.
  - exists w, []. simpl. rewrite !app_nil_r.
    split; [done|]. split; [done|]. split; [done|]. split; [done|]. split; [done|].
    intros _ _ ns Hin. by apply elem_of_nil in Hin.
  - pose proof (bake_iteration_spec maya namespaces s e total (S n) x w) as Hit.
    replace (S n - 1) with n in Hit by lia.
    rewrite for_enumerate_cons.
    destruct (cancel_observed maya n w).
    + destruct Hit as [h ->]. eexists _, []. simpl. rewrite !app_nil_r.
      split; [done|]. split; [done|]. split; [done|].
      split; [apply sublist_nil_l|]. split; [done|].
      intros _ Ht ns Hin. unfold status_get. simpl.
      rewrite status_set_all_lookup, Hd, bool_decide_eq_true_2 by done.
      rewrite Forall_forall in Ht. rewrite (Ht ns Hin). simpl.
      split; (split; [done|]); intros Hx; by apply elem_of_nil in Hx.
    + destruct Hit as (bsd & h & outcome & calls & warns & -> & _ & Hc).
      apply item_case_calls in Hc as (-> & Hsub & Hrange & Hbaked & Hfailed & Hns).
      pose proof (drop_cons_next _ _ _ _ Hd) as Hd'.
      destruct (IH (S n) (item_done x outcome h calls (failure_warnings calls) w) Hd')
        as (w' & new & E & Hcalls & Hwarns & Hsub' & Hrange' & Hout).
      destruct (bake_loop_from maya namespaces s e total l (S n)
                  (item_done x outcome h calls (failure_warnings calls) w) Hd')
        as (w'' & E' & _ & _ & _ & Hframe).
      rewrite E in E'. injection E' as <-.
      exists w', (calls ++ new). split; [done|]. simpl in Hcalls, Hwarns.
      split; [by rewrite Hcalls, app_assoc|].
      split; [by rewrite Hwarns, failure_warnings_app, app_assoc|].
      split; [rewrite fmap_app; by apply (sublist_app _ [x])|].
      split; [by apply Forall_app|].
      intros Hnd Ht ns Hin.
      apply NoDup_cons in Hnd as [Hx Hnd]. apply Forall_cons in Ht as [Htx Ht].
      assert (Hnew : ∀ c, c ∈ new → call_ns c ∈ l).
      { intros c Hcin. eapply sublist_submseteq, elem_of_submseteq in Hsub'; [done|].
        apply list_elem_of_fmap. by exists c. }
      rewrite !elem_of_app.
      apply elem_of_cons in Hin as [->|Hin].
      * rewrite <- Hbaked, <- Hfailed. unfold status_get.
        rewrite (Hframe x Hx). simpl.
        change (default St_not (status_set x outcome (_STATUS w) !! x))
          with (status_get (status_set x outcome (_STATUS w)) x).
        rewrite status_get_set by done.
        split; (split; [by left|]); (intros [?|Hc]; [done|]);
          apply Hnew in Hc; simpl in Hc; done.
      * destruct (Hout Hnd Ht ns Hin) as [Hb Hf]. rewrite Hb, Hf.
        assert (ns ≠ x) by (intros ->; done).
        split; (split; [by right|]); (intros [Hc|?]; [|done]);
          apply Hns in Hc; simpl in Hc; done.
Qed.

Lemma driver_calls namespaces s e (w : St) :
  ∃ w' new,
    bake_selected_actors_in_range_with_progress maya namespaces s e w = Ret PyNone w'
    ∧ bake_calls w' = bake_calls w ++ new
    ∧ warnings w' = warnings w ++ failure_warnings new
    ∧ call_ns <$> new `sublist_of` namespaces
    ∧ Forall (fun c => call_range c = (s, e)) new
    ∧ (NoDup namespaces → Forall (fun ns => truthy ns = true) namespaces →
       ∀ ns, ns ∈ namespaces →
         (status_get (_STATUS w') ns = St_baked ↔ (ns, s, e, true) ∈ new)
         ∧ (status_get (_STATUS w') ns = St_failed ↔ (ns, s, e, false) ∈ new)).
Proof.
  destruct namespaces as [|x l].
  - exists w, []. simpl. rewrite !app_nil_r.
    split; [done|]. split; [done|]. split; [done|]. split; [done|]. split; [done|].
    intros _ _ ns Hin. by apply elem_of_nil in Hin.
  - unfold bake_selected_actors_in_range_with_progress. cbv zeta.
    change (Nat.eqb (length (x :: l)) 0) with false. cbv iota.
    rewrite bind_eval, try_finally_eval, bind_command. cbv beta.
    unfold bake_loop.
    destruct (bake_loop_calls (x :: l) s e (length (x :: l)) (x :: l) 0
                (set_host (progressWindow_begin maya (length (x :: l)) (host w)) w) eq_refl)
      as (w1 & new & -> & Hcalls & Hwarns & Hsub & Hrange & Hout).
    rewrite try_except_eval. unfold command at 1. cbv beta iota.
    rewrite bind_eval.
    destruct (populate_list_ret maya (set_host (progressWindow_end maya (host w1)) w1))
      as (w2 & -> & Hc & _).
    exists w2, new. split; [reflexivity|].
    unfold core_same in Hc. simpl in Hc, Hcalls, Hwarns.
    destruct Hc as (Hs & _ & _ & _ & Hb & Hw).
    rewrite Hs, Hb, Hw. done.
Qed.

(** X14: the calls the driver makes to the retarget service follow its
    list: the namespaces called are a sublist of the list (same order, at
    most one call per position, none for an id outside the list), every call
    carries the start and end frame given to the driver, and the driver logs
    exactly one "Failed baking" warning per call that raised, in order. *)
Theorem driver_calls_follow_the_list namespaces s e (w : St) :
  ∃ w' new,
    bake_selected_actors_in_range_with_progress maya namespaces s e w = Ret PyNone w'
    ∧ bake_calls w' = bake_calls w ++ new
    ∧ warnings w' = warnings w ++ failure_warnings new
    ∧ call_ns <$> new `sublist_of` namespaces
    ∧ Forall (fun c => call_range c = (s, e)) new.
Proof.
  destruct (driver_calls namespaces s e w) as (w' & new & E & H1 & H2 & H3 & H4 & _).
  by exists w', new.
Qed.

(** X15: on a list of distinct ids, the statuses the driver leaves tell
    what happened at the service: an id is Baked exactly when the service
    was called for it and returned, and Failed exactly when the service was
    called for it and raised; so an id left Skipped or Canceled was never
    sent to the service. *)
Theorem driver_statuses_match_the_calls namespaces s e (w : St) :
  NoDup namespaces →
  Forall (fun ns => truthy ns = true) namespaces →
  ∃ w' new,
    bake_selected_actors_in_range_with_progress maya namespaces s e w = Ret PyNone w'
    ∧ bake_calls w' = bake_calls w ++ new
    ∧ ∀ ns, ns ∈ namespaces →
        (status_get (_STATUS w') ns = St_baked ↔ (ns, s, e, true) ∈ new)
        ∧ (status_get (_STATUS w') ns = St_failed ↔ (ns, s, e, false) ∈ new)
        ∧ (status_get (_STATUS w') ns ∈ [St_skipped; St_canceled]
           ↔ ns ∉ call_ns <$> new).
Proof.
  intros Hnd Ht.
  destruct (driver_calls namespaces s e w) as (w' & new & E & H1 & _ & _ & Hr & Hout).
  exists w', new. split; [done|]. split; [done|]. intros ns Hin.
  destruct (Hout Hnd Ht ns Hin) as [Hb Hf]. split; [done|]. split; [done|].
  assert (Hterm : is_terminal (status_get (_STATUS w') ns) = true).
  { destruct namespaces as [|x l]; [by apply elem_of_nil in Hin|].
    destruct (driver_spec maya (x :: l) s e w) as (w'' & E' & _ & _ & _ & _ & Ht' & _);
      [done|].
    rewrite E in E'. injection E' as <-. apply Ht'; [done|].
    rewrite Forall_forall in Ht. by apply Ht. }
  assert (Hcalled : ns ∈ call_ns <$> new
                    ↔ (ns, s, e, true) ∈ new ∨ (ns, s, e, false) ∈ new).
  { rewrite list_elem_of_fmap. split.
    - intros ([[[ns' s'] e'] ok] & -> & Hc). rewrite Forall_forall in Hr.
      specialize (Hr _ Hc). unfold call_range in Hr. simpl in Hr.
      injection Hr as -> ->. unfold call_ns. simpl. destruct ok; [by left|by right].
    - intros [Hc|Hc]; eexists; (split; [|exact Hc]); done. }
  rewrite Hcalled, <- Hb, <- Hf.
  destruct (status_get (_STATUS w') ns); try done; set_solver.
Qed.

(** *** The selective bake without progress *)

Lemma selective_loop s e skip l :
  ∀ w : St, ∃ w' new,
    for_each
      (fun ns =>
         bind (_read_bind_driver maya ns)
           (fun bsd =>
              if skip && eq_one bsd then ret tt
              else try_except (retarget_call maya ns s e)
                              (fun _ => warning (WFailedBaking ns))))
      l w = Ret tt w'
    ∧ bake_calls w' = bake_calls w ++ new
    ∧ warnings w' = warnings w ++ failure_warnings new
    ∧ call_ns <$> new `sublist_of` l
    ∧ Forall (fun c => call_range c = (s, e)) new
    ∧ (skip = false → call_ns <$> new = l)
    ∧ _STATUS w' = _STATUS w ∧ _MARKED_NS w' = _MARKED_NS w
    ∧ _RIGS_CACHE w' = _RIGS_CACHE w
    ∧ _muted_expr_backup w' = _muted_expr_backup w.
Proof.
  induction l as [|x l IH]; intros w.
  - exists w, []. simpl. rewrite !app_nil_r. repeat split; done.
  - simpl. rewrite bind_eval.
    destruct (read_bind_driver_ret maya x w) as [bsd Eb].
    rewrite (bind_ret_eq _ _ _ _ _ Eb).
    destruct (skip && eq_one bsd) eqn:Esk.
    + unfold ret at 1. cbv beta iota.
      destruct (IH w) as (w' & new & E & Hc & Hw & Hsub & Hr & Hall & Hrest).
      exists w', new. split; [done|]. split; [done|]. split; [done|].
      split; [by apply sublist_cons|]. split; [done|]. split; [|done].
      intros ->. done.
    + rewrite try_except_eval. unfold retarget_call.
      destruct (retarget_batch maya x s e (host w)) as [[] h|err h]; cbv beta iota.
      * destruct (IH (log_bake_call (x, s, e, true) (set_host h w)))
          as (w' & new & E & Hc & Hw & Hsub & Hr & Hall & Hrest).
        exists w', ((x, s, e, true) :: new). split; [done|]. simpl in Hc, Hw, Hrest.
        split; [by rewrite Hc, <- app_assoc|]. split; [done|].
        split; [rewrite fmap_cons; by apply sublist_skip|].
        split; [by apply Forall_cons|].
        split; [|done]. intros Hs. rewrite fmap_cons. by rewrite Hall.
      * unfold warning, modify.
        destruct (IH (log_warning (WFailedBaking x)
                        (log_bake_call (x, s, e, false) (set_host h w))))
          as (w' & new & E & Hc & Hw & Hsub & Hr & Hall & Hrest).
        exists w', ((x, s, e, false) :: new). split; [done|]. simpl in Hc, Hw, Hrest.
        split; [by rewrite Hc, <- app_assoc|].
        split; [by rewrite Hw, <- app_assoc|].
        split; [rewrite fmap_cons; by apply sublist_skip|].
        split; [by apply Forall_cons|].
        split; [|done]. intros Hs. rewrite fmap_cons. by rewrite Hall.
Qed.

(** X16: the selective bake without progress never raises and keeps no
    books: statuses, marks, cache and backup are as before.  Its calls to
    the retarget service are for namespaces of its list, in order, with the
    range given, one warning per call that raised; and with
    [skip_if_baked=False] it calls the service for every namespace of the
    list, whatever the readiness flags read. *)
Theorem bake_selected_without_progress_spec namespaces s e skip (w : St) :
  ∃ w' new,
    bake_selected_actors_in_range maya namespaces s e skip w = Ret tt w'
    ∧ bake_calls w' = bake_calls w ++ new
    ∧ warnings w' = warnings w ++ failure_warnings new
    ∧ call_ns <$> new `sublist_of` namespaces
    ∧ Forall (fun c => call_range c = (s, e)) new
    ∧ (if skip then True else call_ns <$> new = namespaces)
    ∧ _STATUS w' = _STATUS w ∧ _MARKED_NS w' = _MARKED_NS w
    ∧ _RIGS_CACHE w' = _RIGS_CACHE w
    ∧ _muted_expr_backup w' = _muted_expr_backup w.
Proof.
  assert (Hloop := selective_loop s e skip namespaces w).
  destruct Hloop as (w' & new & E & Hc & Hw & Hsub & Hr & Hall & Hrest).
  exists w', new. split.
  - unfold bake_selected_actors_in_range. destruct namespaces; [|exact E].
    simpl in E. exact E.
  - split; [done|]. split; [done|]. split; [done|]. split; [done|].
    split; [|done]. destruct skip; [done|by apply Hall].
Qed.

(** *** A run over the marked rigs *)















(** X19: with nothing marked, a run needs the operator's agreement to
    bake every rig.  Unless the dialog answers "Yes, bake all", [_on_run_bake]
    logs that the bake was cancelled and does nothing else: no range is
    computed, nothing is sent to the retarget service, the scene and the
    statuses are as they were. *)
Theorem run_bake_without_marks_needs_confirmation (w : St) :
  _MARKED_NS w = ∅ →
  confirmDialog maya "Bake All Rigs?" (host w) ≠ "Yes, bake all" →
  _on_run_bake maya w = Ret PyNone (log_warning WBakeCanceledNoMarks w).
Proof.
  intros Hm Hno. unfold _on_run_bake. rewrite bind_query.
  destruct (checkBox_value maya "cb_prepost_enable" (host w)); cbv iota;
    repeat pstep; rewrite Hm, elements_empty;
    change (sorted []) with (@nil string); cbv iota;
    rewrite bind_eval, bind_query;
    apply String.eqb_neq in Hno; rewrite Hno; reflexivity.
Qed.

(** X20: a run changes neither the marked set nor the cache, whatever
    happens in it, whether it returns or raises: the rigs marked before a
    bake are the rigs marked after it. *)
Theorem run_bake_keeps_marks_and_cache (w : St) :
  _MARKED_NS (state_after (_on_run_bake maya w)) = _MARKED_NS w
  ∧ _RIGS_CACHE (state_after (_on_run_bake maya w)) = _RIGS_CACHE w.
Proof.
  destruct (on_run_bake_keeps_registry maya w) as (Hm & Hr & _). done.
Qed.



(** *** The camera listing *)

Lemma fromkeys_fold l :
  ∀ acc : list string, NoDup acc →
  let out := foldl (fun acc x => if bool_decide (x ∈ acc) then acc else acc ++ [x]) acc l in
  NoDup out ∧ (∀ x, x ∈ out ↔ x ∈ acc ∨ x ∈ l) ∧ acc `prefix_of` out.
Proof.
  induction l as [|y l IH]; intros acc Hn; simpl.
  - split; [done|]. split; [|done]. intros x. split; [by left|].
    intros [?|Hx]; [done|]. by apply elem_of_nil in Hx.
  - case_bool_decide as Hy.
    + destruct (IH acc Hn) as (H1 & H2 & H3). split; [done|]. split; [|done].
      intros x. rewrite H2, elem_of_cons. naive_solver.
    + destruct (IH (acc ++ [y])) as (H1 & H2 & H3).
      { apply NoDup_app. split; [done|]. split; [|apply NoDup_singleton].
        intros x Hx Hx'. apply list_elem_of_singleton in Hx'. by subst. }
      split; [done|]. split.
      * intros x. rewrite H2, elem_of_app, list_elem_of_singleton, elem_of_cons.
        naive_solver.
      * etransitivity; [|exact H3]. by apply prefix_app_r.
Qed.

Lemma dict_fromkeys_spec l :
  NoDup (dict_fromkeys l) ∧ ∀ x, x ∈ dict_fromkeys l ↔ x ∈ l.
Proof.
  destruct (fromkeys_fold l [] (NoDup_nil_2)) as (H1 & H2 & _).
  split; [exact H1|]. intros x. unfold dict_fromkeys. rewrite H2.
  split; [|by right]. intros [Hx|?]; [|done]. by apply elem_of_nil in Hx.
Qed.

Lemma pure_cases {A} (m : M St A) (w : St) :
  always (fun w w' : St => w' = w) m →
  (∃ a, m w = Ret a w) ∨ (∃ e, m w = Raise e w).
Proof.
  intros Hm. specialize (Hm w).
  destruct (m w) as [a w'|e w']; simpl in Hm; subst w'; eauto.
Qed.

Variable cameras : MayaCameras H.

Lemma for_any_pure {A} (p : A -> M St bool) l :
  (∀ x, always (fun w w' : St => w' = w) (p x)) →
  always (fun w w' : St => w' = w) (for_any p l).
Proof.
  intros Hp. induction l as [|x l IH]; simpl.
  - apply (always_ret _ same_refl).
  - apply (always_bind _ same_trans); [apply Hp|].
    intros []; [apply (always_ret _ same_refl)|apply IH].
Qed.

Lemma as_camera_transform_pure node :
  always (fun w w' : St => w' = w) (_as_camera_transform maya cameras node).
Proof.
  unfold _as_camera_transform.
  destruct (negb (truthy node)); [apply (always_ret _ same_refl)|].
  apply (always_bind _ same_trans); [apply (always_query _ same_refl)|]. intros there.
  destruct (negb there); [apply (always_ret _ same_refl)|].
  apply (always_bind _ same_trans); [apply (always_queryE _ same_refl)|]. intros nt.
  destruct (String.eqb nt "transform").
  - apply (always_bind _ same_trans); [apply (always_queryE _ same_refl)|]. intros shapes.
    apply (always_bind _ same_trans).
    + apply for_any_pure. intros s. pure_steps.
    + intros []; apply (always_ret _ same_refl).
  - destruct (String.eqb nt "camera"); pure_steps.
Qed.

Lemma camera_candidates_cases nodes (w : St) :
  (∃ cs, camera_candidates maya cameras nodes w = Ret cs w
         ∧ Forall (fun c => truthy c = true) cs)
  ∨ (∃ e, camera_candidates maya cameras nodes w = Raise e w).
Proof.
  unfold camera_candidates. rewrite bind_eval.
  destruct (pure_cases (for_collect (_as_camera_transform maya cameras) nodes) w)
    as [[found E]|[e E]].
  { apply (always_for_collect _ same_refl same_trans). apply as_camera_transform_pure. }
  - left. rewrite E. eexists. split; [reflexivity|].
    apply Forall_forall. intros c Hc. apply list_elem_of_omap in Hc as (t & _ & Ht).
    destruct t as [s|]; [|done]. destruct (truthy s) eqn:Es; [|done].
    by injection Ht as <-.
  - right. rewrite E. by exists e.
Qed.

Lemma list_all_camera_transforms_cases (w : St) :
  (∃ cams, list_all_camera_transforms maya cameras w = Ret cams w
           ∧ NoDup cams ∧ Forall (fun c => truthy c = true) cams)
  ∨ (∃ e, list_all_camera_transforms maya cameras w = Raise e w).
Proof.
  unfold list_all_camera_transforms. rewrite bind_eval. unfold queryE.
  destruct (list_scene_cameras cameras (host w)) as [e|from_layout]; [right; by exists e|].
  rewrite bind_eval.
  destruct (camera_candidates_cases from_layout w) as [(c1 & -> & H1)|[e ->]];
    [|right; by exists e].
  rewrite bind_query, bind_eval.
  destruct (camera_candidates_cases (ls_type maya "camera" (host w)) w)
    as [(c2 & -> & H2)|[e ->]]; [|right; by exists e].
  left. eexists. split; [reflexivity|].
  destruct (dict_fromkeys_spec (c1 ++ c2)) as [Hn Hin]. split; [done|].
  apply Forall_forall. intros c Hc. apply Hin, elem_of_app in Hc.
  rewrite Forall_forall in H1, H2. destruct Hc; auto.
Qed.

(** X22: the list of camera transforms is, as its docstring promises,
    unique: when [list_all_camera_transforms] returns, no transform appears
    twice in its result and none is the empty name; whether it returns or
    raises, it leaves the world as it was. *)
Theorem camera_transforms_are_unique (w : St) :
  match list_all_camera_transforms maya cameras w with
  | Ret cams w' => w' = w ∧ NoDup cams ∧ Forall (fun c => truthy c = true) cams
  | Raise _ w' => w' = w
  end.
Proof.
  destruct (list_all_camera_transforms_cases w) as [(cams & -> & Hn & Ht)|[e ->]]; done.
Qed.

Lemma head_tail_entry c (w : St) :
  ∃ y, try_except
         (bind (_read_cam_attr_int maya c "headIn")
            (fun h => bind (_read_cam_attr_int maya c "tailOut")
                        (fun t => ret (Some {| cam := c; headIn := h; tailOut := t |}))))
         (fun _ => ret None) w = Ret y w
       ∧ ∀ x, y = Some x ↔
              cam x = c
              ∧ _read_cam_attr_int maya c "headIn" w = Ret (headIn x) w
              ∧ _read_cam_attr_int maya c "tailOut" w = Ret (tailOut x) w.
Proof.
  rewrite try_except_eval, bind_eval.
  destruct (read_cam_attr_int_cases c "headIn" w) as [[h E1]|E1]; rewrite E1.
  - rewrite bind_eval.
    destruct (read_cam_attr_int_cases c "tailOut" w) as [[t E2]|E2]; rewrite E2.
    + eexists. split; [reflexivity|]. intros [c' h' t']. simpl. split.
      * intros [= <- <- <-]. done.
      * intros (-> & [= ->] & [= ->]). done.
    + eexists. split; [reflexivity|]. intros x. split; [done|]. intros (_ & _ & ?). done.
  - eexists. split; [reflexivity|]. intros x. split; [done|]. intros (_ & ? & _). done.
Qed.

(** X23: a camera whose head or tail cannot be read is left out of
    [list_cameras_with_head_tail], it does not abort the listing.  The
    function raises only when the listing of the transforms raises;
    otherwise it returns, in the order of the transforms, exactly the
    transforms whose [headIn] and [tailOut] both read, with the values
    read, and the world is as it was. *)
Theorem cameras_with_head_tail_are_the_readable_ones (w : St) :
  match list_all_camera_transforms maya cameras w with
  | Raise e w' => list_cameras_with_head_tail maya cameras w = Raise e w'
  | Ret cams _ =>
      ∃ out, list_cameras_with_head_tail maya cameras w = Ret out w
        ∧ cam <$> out `sublist_of` cams
        ∧ ∀ x, x ∈ out ↔
               cam x ∈ cams
               ∧ _read_cam_attr_int maya (cam x) "headIn" w = Ret (headIn x) w
               ∧ _read_cam_attr_int maya (cam x) "tailOut" w = Ret (tailOut x) w
  end.
Proof.
  unfold list_cameras_with_head_tail. rewrite bind_eval.
  destruct (list_all_camera_transforms_cases w) as [(cams & -> & _ & _)|[e ->]]; [|done].
  match goal with |- context [for_collect ?f cams] =>
    assert (Hloop : ∀ l, ∃ found, for_collect f l w = Ret found w
                      ∧ cam <$> omap id found `sublist_of` l
                      ∧ ∀ x, x ∈ omap id found ↔
                             cam x ∈ l
                             ∧ _read_cam_attr_int maya (cam x) "headIn" w = Ret (headIn x) w
                             ∧ _read_cam_attr_int maya (cam x) "tailOut" w
                               = Ret (tailOut x) w)
  end.
  { induction l as [|c l IH]; simpl.
    - exists []. split; [done|]. split; [done|]. intros x. split.
      + intros Hx. by apply elem_of_nil in Hx.
      + intros (Hx & _). by apply elem_of_nil in Hx.
    - destruct (head_tail_entry c w) as (y & Ey & Hy).
      destruct IH as (found & Ef & Hsub & Hin).
      rewrite bind_eval, Ey, bind_eval, Ef. exists (y :: found).
      split; [reflexivity|]. simpl. destruct y as [x0|]; simpl.
      + destruct (proj1 (Hy x0) eq_refl) as (Hc0 & Hh0 & Ht0). split.
        * rewrite Hc0. by apply sublist_skip.
        * intros x. rewrite !elem_of_cons, Hin. split.
          -- intros [->|(Hx & Hh & Ht)]; [rewrite Hc0; auto|auto].
          -- intros ([Hx|Hx] & Hh & Ht); [|auto]. left.
             assert (Some x0 = Some x) as [= ->]; [|done].
             apply Hy. rewrite Hx in Hh, Ht. done.
      + split; [by apply sublist_cons|].
        intros x. rewrite Hin, elem_of_cons. split; [naive_solver|].
        intros ([Hx|Hx] & Hh & Ht); [|auto]. exfalso.
        assert (None = Some x) as [=]. apply Hy. rewrite Hx in Hh, Ht. done. }
  destruct (Hloop cams) as (found & E & Hsub & Hin).
  rewrite bind_eval, E. eexists. split; [reflexivity|]. done.
Qed.

End Coverage.

(** ** More of the module on concrete scenes *)

(** Scenario: with the text in the filter field only the row of B is
    shown; without it both rows are. *)
Lemma filter_text_witness :
  _STATUS world_AB_filtered = _STATUS world_AB
  ∧ textField_text scene_maya (host world_AB) = ""
  ∧ _LIST_LABELS (state_after (_populate_list scene_maya world_AB_filtered))
    `sublist_of` _LIST_LABELS (state_after (_populate_list scene_maya world_AB)).
Proof.
  split; [by_compute|]. split; [by_compute|].
  apply (filter_text_only_hides_rows scene_maya world_AB_filtered world_AB);
    by_compute.
Defined.

Lemma scenario_filter_text :
  length (_LIST_LABELS (state_after (_populate_list scene_maya world_AB_filtered))) = 1
  ∧ length (_LIST_LABELS (state_after (_populate_list scene_maya world_AB))) = 2.
Proof. split; by_compute. Qed.

(** Scenario: A and B selected, toggled on, toggled off again. *)
Lemma toggle_twice_witness :
  ∃ w2, _toggle_selected scene_maya
          (state_after (_toggle_selected scene_maya world_AB_selected)) = Ret tt w2
    ∧ _MARKED_NS w2 = _MARKED_NS world_AB_selected.
Proof.
  apply (toggle_selected_twice_restores_marks scene_maya world_AB_selected).
  by_compute.
Defined.

Lemma scenario_toggle_once :
  _MARKED_NS (state_after (_toggle_selected scene_maya world_AB_selected))
  = {["A"; "B"]}.
Proof. by_compute. Qed.

(** Scenario: five distinct ids; x0 and x2 are baked, x1 fails, x3 and x4
    are cancelled. *)
Lemma driver_statuses_witness :
  NoDup ids_x ∧ Forall (fun ns => truthy ns = true) ids_x
  ∧ ∃ w' new,
      bake_selected_actors_in_range_with_progress scene_maya ids_x 1 120 world_x
      = Ret PyNone w'
      ∧ bake_calls w' = bake_calls world_x ++ new
      ∧ ∀ ns, ns ∈ ids_x →
          (status_get (_STATUS w') ns = St_baked ↔ (ns, 1%Z, 120%Z, true) ∈ new)
          ∧ (status_get (_STATUS w') ns = St_failed ↔ (ns, 1%Z, 120%Z, false) ∈ new)
          ∧ (status_get (_STATUS w') ns ∈ [St_skipped; St_canceled]
             ↔ ns ∉ call_ns <$> new).
Proof.
  assert (Hnd : NoDup ids_x) by by_compute.
  assert (Hids : Forall (fun ns => truthy ns = true) ids_x) by by_compute.
  split; [exact Hnd|]. split; [exact Hids|].
  exact (driver_statuses_match_the_calls scene_maya ids_x 1 120 world_x Hnd Hids).
Defined.

Lemma scenario_driver_calls :
  bake_calls (state_after (bake_selected_actors_in_range_with_progress
                             scene_maya ids_x 1 120 world_x))
  = [("x0", 1%Z, 120%Z, true); ("x1", 1%Z, 120%Z, false); ("x2", 1%Z, 120%Z, true)].
Proof. by_compute. Qed.




Lemma scenario_run_bake_B :
  bake_calls (state_after (_on_run_bake scene_maya world_B_marked))
  = [("B", 1%Z, 120%Z, true)]
  ∧ _STATUS (state_after (_on_run_bake scene_maya world_B_marked))
    = {["A" := St_baked; "B" := St_baked]}.
Proof. split; by_compute. Qed.

(** Scenario: nothing marked, the operator answers Cancel. *)
Lemma run_bake_declined_witness :
  _on_run_bake scene_maya world_AB = Ret PyNone (log_warning WBakeCanceledNoMarks world_AB).
Proof.
  apply (run_bake_without_marks_needs_confirmation scene_maya world_AB); by_compute.
Defined.


Lemma scenario_bake_all_offline :
  sc_expressions (host (state_after (_on_run_bake scene_maya_offline world_offline)))
  = [("e1", "")]
  ∧ _muted_expr_backup (state_after (_on_run_bake scene_maya_offline world_offline))
    = Some [("e1", "ball.tx = 1")].
Proof. split; by_compute. Qed.
